(** * The Sparkify ETL loader (etl.py), embedded and verified

    The script reads song-metadata files and event-log files with pandas,
    and feeds a PostgreSQL database through a psycopg2 cursor.  The
    embedding below follows [etl.py] function by function:

    - cells of a data frame are [value]s, one JSON object is a
      [gmap string value], a frame is its column labels and its rows;
    - the database driver and the file system are interfaces
      ([Postgres], [Files]): the script only calls them;
    - every call the script makes on the cursor, the connection or the
      console is recorded as an [event]; a computation is a function from
      the database state to an [outcome] (result or raised exception,
      final state, events emitted), so that an exception cuts the rest of
      the computation exactly as it does in Python. *)

From Stdlib Require Import ZArith String List DecimalString Lia.
From Corelib Require Import PrimFloat.
From stdpp Require Import base gmap strings list.

(** ** Values and frames *)

(** A cell of a frame, a query parameter, a column of a fetched row. *)
Inductive value : Type :=
| VNull                   (* JSON null, None, NaN *)
| VBool (b : bool)
| VInt (z : Z)
| VFloat (f : float)
| VStr (s : string)
| VTimestamp (ms : Z).    (* pandas Timestamp, milliseconds since the epoch *)

(** [pd.read_json(..., lines=True)]: the labels are those of all the
    objects read, and a row has NaN where its object lacks a label. *)
Record DataFrame : Type := {
  columns : list string;
  rows : list (gmap string value)
}.

Definition cell (r : gmap string value) (c : string) : value :=
  default VNull (r !! c).

Definition from_records (recs : list (gmap string value)) : DataFrame :=
  {| columns := recs ≫= (λ r, (map_to_list r).*1); rows := recs |}.

Definition has_column (df : DataFrame) (c : string) : bool :=
  bool_decide (c ∈ columns df).

(** [df[mask]]: the rows change, the labels stay. *)
Definition filter_rows (p : gmap string value → bool) (df : DataFrame) : DataFrame :=
  {| columns := columns df; rows := List.filter p (rows df) |}.

(** [df[cols].values]: one list of cells per row, in the order of [cols]. *)
Definition values (df : DataFrame) (cols : list string) : list (list value) :=
  (λ r, cell r <$> cols) <$> rows df.

(** [df['page'] == 'NextSong'], cell by cell. *)
Definition is_NextSong (r : gmap string value) : bool :=
  match cell r "page" with
  | VStr s => String.eqb s "NextSong"
  | _ => false
  end.

(** ** Exceptions, statements, events *)

Inductive exn : Type :=
| KeyError (label : string)
| IndexError
| AttributeError (name : string)
| ValueError
| OutOfBoundsDatetime
| DatabaseError (msg : string).

Inductive res (A : Type) : Type :=
| Ok (a : A)
| Raise (e : exn).
Arguments Ok {A} a.
Arguments Raise {A} e.

(** The names that [from sql_queries import *] brings in and etl.py uses. *)
Inductive stmt : Type :=
| song_table_insert
| artist_table_insert
| time_table_insert
| user_table_insert
| songplay_table_insert
| song_select.

Inductive event : Type :=
| EConnect (dsn : string)
| ECursor
| EExecute (q : stmt) (args : list value)
| EFetchone
| ECommit
| EClose
| EPrint (line : string).

(** ** Calendar fields of a timestamp

    [pd.to_datetime(ts, unit='ms')] and the [.dt] accessors, on the
    proleptic Gregorian calendar, in UTC. *)

Module Calendar.
Local Open Scope Z_scope.

Definition ms_per_day : Z := 86400000.

Definition days_of (ms : Z) : Z := ms / ms_per_day.

Definition hour (ms : Z) : Z := (ms mod ms_per_day) / 3600000.

(** Monday is 0; the epoch was a Thursday. *)
Definition weekday (ms : Z) : Z := (days_of ms + 3) mod 7.

(** Year, month and day of a day number (days since 1970-01-01), counted
    on years that start in March, in eras of 400 years. *)
Definition civil (days : Z) : Z * Z * Z :=
  let z := days + 719468 in
  let era := z / 146097 in
  let doe := z - era * 146097 in
  let yoe := (doe - doe / 1460 + doe / 36524 - doe / 146096) / 365 in
  let doy := doe - (365 * yoe + yoe / 4 - yoe / 100) in
  let mp := (5 * doy + 2) / 153 in
  let d := doy - (153 * mp + 2) / 5 + 1 in
  let m := if mp <? 10 then mp + 3 else mp - 9 in
  let y := yoe + era * 400 + (if m <=? 2 then 1 else 0) in
  (y, m, d).

Definition year (ms : Z) : Z := (civil (days_of ms)).1.1.
Definition month (ms : Z) : Z := (civil (days_of ms)).1.2.
Definition day (ms : Z) : Z := (civil (days_of ms)).2.

Definition is_leap (y : Z) : bool :=
  ((y mod 4 =? 0) && negb (y mod 100 =? 0)) || (y mod 400 =? 0).

(** Days before the first of month [m] in a year. *)
Definition days_before_month (leap : bool) (m : Z) : Z :=
  let base := nth (Z.to_nat (m - 1))
                  [0; 31; 59; 90; 120; 151; 181; 212; 243; 273; 304; 334] 0 in
  if leap && (2 <? m) then base + 1 else base.

Definition day_of_year (ms : Z) : Z :=
  days_before_month (is_leap (year ms)) (month ms) + day ms.

(** A year has 53 ISO weeks when it ends on a Thursday, or the previous
    one ends on a Wednesday. *)
Definition dec31_dow (y : Z) : Z := (y + y / 4 - y / 100 + y / 400) mod 7.

Definition weeks_in_year (y : Z) : Z :=
  if (dec31_dow y =? 4) || (dec31_dow (y - 1) =? 3) then 53 else 52.

(** ISO 8601 week number. *)
Definition week (ms : Z) : Z :=
  let w := (day_of_year ms - (weekday ms + 1) + 10) / 7 in
  if w <? 1 then weeks_in_year (year ms - 1)
  else if weeks_in_year (year ms) <? w then 1
  else w.

(** The day number of a date, the other way round: used to check [civil]. *)
Definition days_from_civil (y m d : Z) : Z :=
  let y' := if m <=? 2 then y - 1 else y in
  let era := y' / 400 in
  let yoe := y' - era * 400 in
  let mp := if 2 <? m then m - 3 else m + 9 in
  let doy := (153 * mp + 2) / 5 + d - 1 in
  let doe := yoe * 365 + yoe / 4 - yoe / 100 + doy in
  era * 146097 + doe - 719468.

(** A Timestamp counts nanoseconds in 64 bits, the least value being NaT. *)
Definition in_bounds (ms : Z) : bool :=
  (- 2 ^ 63 <? ms * 1000000) && (ms * 1000000 <? 2 ^ 63).

End Calendar.

(** [pd.to_datetime(v, unit='ms')] on one cell.  The column holds epoch
    milliseconds as integers; a cell of another type is refused here. *)
Definition to_datetime (v : value) : res value :=
  match v with
  | VInt ms => if Calendar.in_bounds ms then Ok (VTimestamp ms) else Raise OutOfBoundsDatetime
  | _ => Raise ValueError
  end.

(** One row of [time_df]: the seven columns, in the order of
    [column_labels]. *)
Definition time_row (ms : Z) : list value :=
  [VTimestamp ms; VInt (Calendar.hour ms); VInt (Calendar.day ms);
   VInt (Calendar.week ms); VInt (Calendar.month ms); VInt (Calendar.year ms);
   VInt (Calendar.weekday ms)].

(** ** The environment: psycopg2 and the file system *)

(** What the script uses of psycopg2.  [DB] is everything behind the
    connection.  [db_execute] and [db_connect] may raise; the spec lists
    no failure of [fetchone], [commit] or [close], and they are taken to
    return.

    Modelled from the spec: sql_queries.py is absent, and with it the text
    of [song_select]; the spec gives its result as "(song_id, artist_id)
    or no row", which is the type of [db_fetchone]. *)
Class Postgres : Type := {
  DB : Type;
  db_connect : string → res DB;
  db_execute : stmt → list value → DB → res DB;
  db_fetchone : DB → option (value * value) * DB;
  db_commit : DB → DB;
  db_close : DB → DB
}.

(** What the script uses of pandas' reader, [os] and [glob]:
    [read_json] gives the objects of a file, one per line, or raises;
    [os_walk] gives the (root, dirs, files) triples under a directory;
    [glob_glob] expands a pattern; [abspath] makes a path absolute. *)
Class Files : Type := {
  read_json : string → res (list (gmap string value));
  os_walk : string → list (string * list string * list string);
  glob_glob : string → list string;
  abspath : string → string
}.

(** ** Computations *)

Record outcome (S A : Type) : Type := Outcome {
  result : res A;
  final : S;
  emitted : list event
}.
Arguments Outcome {S A} result final emitted.
Arguments result {S A} o.
Arguments final {S A} o.
Arguments emitted {S A} o.

Definition completes {S A} (o : outcome S A) : Prop := ∃ a, result o = Ok a.

Definition raises {S A} (o : outcome S A) (e : exn) : Prop := result o = Raise e.

Declare Scope etl_scope.

Section Program.
Context `{Postgres} `{Files}.

Definition M (A : Type) : Type := DB → outcome DB A.

Definition ret {A} (a : A) : M A := λ s, Outcome (Ok a) s [].

Definition raise {A} (e : exn) : M A := λ s, Outcome (Raise e) s [].

Definition bind {A B} (m : M A) (k : A → M B) : M B := λ s,
  let o := m s in
  match result o with
  | Ok a => let o' := k a (final o) in
            Outcome (result o') (final o') (emitted o ++ emitted o')
  | Raise e => Outcome (Raise e) (final o) (emitted o)
  end.

Definition lift {A} (r : res A) : M A :=
  match r with Ok a => ret a | Raise e => raise e end.

Notation "x <- m ;; k" := (bind m (λ x, k))
  (at level 100, m at next level, k at level 200, right associativity) : etl_scope.
Notation "m ;; k" := (bind m (λ _, k))
  (at level 100, k at level 200, right associativity) : etl_scope.
Local Open Scope etl_scope.

(** [for x in l: body(x)] *)
Fixpoint for_each {A} (l : list A) (body : A → M unit) : M unit :=
  match l with
  | [] => ret tt
  | x :: l' => body x ;; for_each l' body
  end.

(** [[f(x) for x in l]], stopping at the first exception. *)
Fixpoint traverse {A B} (f : A → res B) (l : list A) : res (list B) :=
  match l with
  | [] => Ok []
  | x :: l' =>
      match f x with
      | Raise e => Raise e
      | Ok y => match traverse f l' with
                | Raise e => Raise e
                | Ok ys => Ok (y :: ys)
                end
      end
  end.

(** *** The cursor, the connection, the console *)

(** [cur.execute(q, args)]: the call is made, then it returns or raises. *)
Definition execute (q : stmt) (args : list value) : M unit := λ s,
  match db_execute q args s with
  | Ok s' => Outcome (Ok tt) s' [EExecute q args]
  | Raise e => Outcome (Raise e) s [EExecute q args]
  end.

Definition fetchone : M (option (value * value)) := λ s,
  let '(r, s') := db_fetchone s in Outcome (Ok r) s' [EFetchone].

Definition commit : M unit := λ s, Outcome (Ok tt) (db_commit s) [ECommit].

Definition close : M unit := λ s, Outcome (Ok tt) (db_close s) [EClose].

Definition print (line : string) : M unit := λ s, Outcome (Ok tt) s [EPrint line].

(** *** Frames *)

(** [df[c]] and [df[[c1, ..., cn]]] raise KeyError on a label that is not
    a column. *)
Definition check_columns (df : DataFrame) (cols : list string) : res unit :=
  match List.find (λ c, negb (has_column df c)) cols with
  | Some c => Raise (KeyError c)
  | None => Ok tt
  end.

(** [row.name] on a row of [df.iterrows()]. *)
Definition getattr (df : DataFrame) (r : gmap string value) (name : string) : res value :=
  if has_column df name then Ok (cell r name) else Raise (AttributeError name).

(** [a[0]] on the array of rows. *)
Definition first_row (vs : list (list value)) : res (list value) :=
  match vs with
  | [] => Raise IndexError
  | v :: _ => Ok v
  end.

Definition song_columns : list string :=
  ["song_id"; "title"; "artist_id"; "year"; "duration"].

Definition artist_columns : list string :=
  ["artist_id"; "artist_name"; "artist_location"; "artist_latitude"; "artist_longitude"].

Definition user_columns : list string :=
  ["userId"; "firstName"; "lastName"; "gender"; "level"].

(** *** etl.py *)

Definition process_song_file (filepath : string) : M unit :=
  recs <- lift (read_json filepath) ;;
  let df := from_records recs in
  lift (check_columns df song_columns) ;;
  song_data <- lift (first_row (values df song_columns)) ;;
  execute song_table_insert song_data ;;
  lift (check_columns df artist_columns) ;;
  let artist_data := concat (values df artist_columns) in
  execute artist_table_insert artist_data.

(** The body of the last loop of [process_log_file]. *)
Definition songplay_step (df : DataFrame) (row : gmap string value) : M unit :=
  song <- lift (getattr df row "song") ;;
  artist <- lift (getattr df row "artist") ;;
  length <- lift (getattr df row "length") ;;
  execute song_select [song; artist; length] ;;
  results <- fetchone ;;
  let '(songid, artistid) :=
    match results with
    | Some (s, a) => (s, a)
    | None => (VNull, VNull)
    end in
  ts <- lift (getattr df row "ts") ;;
  start_time <- lift (to_datetime ts) ;;
  userId <- lift (getattr df row "userId") ;;
  level <- lift (getattr df row "level") ;;
  sessionId <- lift (getattr df row "sessionId") ;;
  location <- lift (getattr df row "location") ;;
  userAgent <- lift (getattr df row "userAgent") ;;
  execute songplay_table_insert
    [start_time; userId; level; songid; artistid; sessionId; location; userAgent].

(** The rows of [time_df], from the column [t] of Timestamps. *)
Definition time_rows (t : list value) : list (list value) :=
  (λ v, match v with VTimestamp ms => time_row ms | _ => [] end) <$> t.

Definition process_log_file (filepath : string) : M unit :=
  recs <- lift (read_json filepath) ;;
  let df := from_records recs in
  lift (check_columns df ["page"]) ;;
  let df := filter_rows is_NextSong df in
  lift (check_columns df ["ts"]) ;;
  t <- lift (traverse to_datetime ((λ r, cell r "ts") <$> rows df)) ;;
  for_each (time_rows t) (λ row, execute time_table_insert row) ;;
  lift (check_columns df user_columns) ;;
  for_each (values df user_columns) (λ row, execute user_table_insert row) ;;
  for_each (rows df) (songplay_step df).

(** [os.path.join(root, name)] for a relative [name]. *)
Definition path_join (root name : string) : string :=
  match root with
  | EmptyString => name
  | _ => if String.eqb (substring (String.length root - 1) 1 root) "/"
         then root +:+ name
         else root +:+ "/" +:+ name
  end.

(** The first loop of [process_data]. *)
Definition all_files (filepath : string) : list string :=
  os_walk filepath ≫= (λ '(root, _, _), abspath <$> glob_glob (path_join root "*.json")).

(** [str(n)] *)
Definition str (n : nat) : string := NilZero.string_of_uint (Nat.to_uint n).

Definition found_line (num_files : nat) (filepath : string) : string :=
  str num_files +:+ " files found in " +:+ filepath.

Definition progress_line (i num_files : nat) : string :=
  str i +:+ "/" +:+ str num_files +:+ " files processed.".

(** [enumerate(l, start)] *)
Fixpoint enumerate {A} (l : list A) (start : nat) : list (nat * A) :=
  match l with
  | [] => []
  | x :: l' => (start, x) :: enumerate l' (S start)
  end.

Definition process_data (filepath : string) (func : string → M unit) : M unit :=
  let all_files := all_files filepath in
  let num_files := List.length all_files in
  print (found_line num_files filepath) ;;
  for_each (enumerate all_files 1) (λ '(i, datafile),
    func datafile ;;
    commit ;;
    print (progress_line i num_files)).

Definition dsn : string :=
  "host=127.0.0.1 dbname=sparkifydb user=student password=student".

(** [main] starts with no connection: its final state is the state
    behind the connection, once there is one. *)
Definition main : outcome (option DB) unit :=
  match db_connect dsn with
  | Raise e => Outcome (Raise e) None [EConnect dsn]
  | Ok conn =>
      let o := (process_data "data/song_data" process_song_file ;;
                process_data "data/log_data" process_log_file ;;
                close) conn in
      Outcome (result o) (Some (final o)) (EConnect dsn :: ECursor :: emitted o)
  end.

End Program.

(** ** Reading a trace *)

(** The argument lists of the calls [cur.execute(q, ...)] of a trace, in
    order. *)
Definition stmt_eqb (a b : stmt) : bool :=
  match a, b with
  | song_table_insert, song_table_insert
  | artist_table_insert, artist_table_insert
  | time_table_insert, time_table_insert
  | user_table_insert, user_table_insert
  | songplay_table_insert, songplay_table_insert
  | song_select, song_select => true
  | _, _ => false
  end.

Fixpoint executes (q : stmt) (tr : list event) : list (list value) :=
  match tr with
  | [] => []
  | EExecute q' args :: tr' =>
      if stmt_eqb q q' then args :: executes q tr' else executes q tr'
  | _ :: tr' => executes q tr'
  end.

Definition is_commit (ev : event) : bool :=
  match ev with ECommit => true | _ => false end.

Definition is_close (ev : event) : bool :=
  match ev with EClose => true | _ => false end.

(** The events of an extractor: calls on the cursor only. *)
Definition cursor_event (ev : event) : Prop :=
  match ev with
  | EExecute _ _ | EFetchone => True
  | _ => False
  end.

(** The epoch milliseconds of an event record. *)
Definition ts_of (r : gmap string value) : Z :=
  match cell r "ts" with VInt ms => ms | _ => 0%Z end.

(** The arguments of the three inserts that one event record gives rise
    to. *)
Definition time_args (r : gmap string value) : list value :=
  [VTimestamp (ts_of r); VInt (Calendar.hour (ts_of r)); VInt (Calendar.day (ts_of r));
   VInt (Calendar.week (ts_of r)); VInt (Calendar.month (ts_of r));
   VInt (Calendar.year (ts_of r)); VInt (Calendar.weekday (ts_of r))].

Definition user_args (r : gmap string value) : list value :=
  [cell r "userId"; cell r "firstName"; cell r "lastName"; cell r "gender"; cell r "level"].

Definition songplay_args (r : gmap string value) (ids : value * value) : list value :=
  [VTimestamp (ts_of r); cell r "userId"; cell r "level"; ids.1; ids.2;
   cell r "sessionId"; cell r "location"; cell r "userAgent"].

(** What [songid, artistid] are after the lookup. *)
Definition ids_of (results : option (value * value)) : value * value :=
  match results with
  | Some (s, a) => (s, a)
  | None => (VNull, VNull)
  end.

(** The first parameter of an insert. *)
Definition first_arg (args : list value) : value := List.hd VNull args.

(** The parameters of the lookup that one event record gives rise to. *)
Definition select_args (r : gmap string value) : list value :=
  [cell r "song"; cell r "artist"; cell r "length"].

(** What it is for [args] to be the parameters of an insert [q] made for
    the event record [r]. *)
Definition row_of (q : stmt) (r : gmap string value) (args : list value) : Prop :=
  match q with
  | time_table_insert =>
      ∃ ms, cell r "ts" = VInt ms ∧
        args = [VTimestamp ms; VInt (Calendar.hour ms); VInt (Calendar.day ms);
                VInt (Calendar.week ms); VInt (Calendar.month ms);
                VInt (Calendar.year ms); VInt (Calendar.weekday ms)]
  | user_table_insert =>
      args = [cell r "userId"; cell r "firstName"; cell r "lastName"; cell r "gender";
              cell r "level"]
  | songplay_table_insert =>
      ∃ ms songid artistid, cell r "ts" = VInt ms ∧
        args = [VTimestamp ms; cell r "userId"; cell r "level"; songid; artistid;
                cell r "sessionId"; cell r "location"; cell r "userAgent"]
  | _ => False
  end.

(** What the Loader adds after the events of the [i]-th completed file. *)
Definition committed (num_files : nat) (i : nat) (block : list event) : list event :=
  block ++ [ECommit; EPrint (progress_line i num_files)].

(** The number of calls [conn.commit()] of a trace. *)
Definition count_commits (tr : list event) : nat := List.length (List.filter is_commit tr).

(** The events of the lookups of [process_log_file]. *)
Definition lookup_event (ev : event) : Prop :=
  ev = EFetchone
  ∨ ∃ args, ev = EExecute song_select args ∨ ev = EExecute songplay_table_insert args.

(** What [main] makes while it loads the song files, and while it loads
    the log files. *)
Definition song_phase_event (ev : event) : Prop :=
  match ev with
  | EExecute q _ => q = song_table_insert ∨ q = artist_table_insert
  | EFetchone | EClose => False
  | _ => True
  end.

Definition log_phase_event (ev : event) : Prop :=
  match ev with
  | EExecute q _ => q ≠ song_table_insert ∧ q ≠ artist_table_insert
  | EConnect _ | ECursor => False
  | _ => True
  end.

(** The lines of the calls [print(...)] of a trace, in order. *)
Fixpoint prints (tr : list event) : list string :=
  match tr with
  | [] => []
  | EPrint line :: tr' => line :: prints tr'
  | _ :: tr' => prints tr'
  end.

(** The fields read on each row of the last loop of [process_log_file]. *)
Definition row_attributes : list string :=
  ["song"; "artist"; "length"; "ts"; "userId"; "level"; "sessionId"; "location"; "userAgent"].

(** ** A database in memory, a file system in a table

    Used to run the script on concrete inputs. *)

Module Memory.

Record db : Type := {
  songs : list (list value);
  artists : list (list value);
  times : list (list value);
  users : list (list value);
  songplays : list (list value);
  selected : option (value * value);
  commits : nat;
  closed : bool
}.

Definition empty : db :=
  {| songs := []; artists := []; times := []; users := []; songplays := [];
     selected := None; commits := 0; closed := false |}.

(** SQL equality of two parameters: never true on NULL. *)
Definition value_eqb (a b : value) : bool :=
  match a, b with
  | VBool x, VBool y => Bool.eqb x y
  | VInt x, VInt y => Z.eqb x y
  | VFloat x, VFloat y => PrimFloat.eqb x y
  | VStr x, VStr y => String.eqb x y
  | VTimestamp x, VTimestamp y => Z.eqb x y
  | _, _ => false
  end.

(** Modelled from the spec: the lookup joins songs and artists on
    (title, artist name, duration) and returns (song_id, artist_id). *)
Definition lookup (d : db) (title name duration : value) : option (value * value) :=
  match List.find (λ s,
          match s with
          | [_; t; aid; _; dur] =>
              value_eqb t title && value_eqb dur duration &&
              existsb (λ a, match a with
                            | aid' :: n :: _ => value_eqb aid aid' && value_eqb n name
                            | _ => false
                            end) (artists d)
          | _ => false
          end) (songs d) with
  | Some (sid :: _ :: aid :: _) => Some (sid, aid)
  | _ => None
  end.

(** A statement takes as many parameters as it has placeholders. *)
Definition arity (q : stmt) : nat :=
  match q with
  | song_table_insert => 5
  | artist_table_insert => 5
  | time_table_insert => 7
  | user_table_insert => 5
  | songplay_table_insert => 8
  | song_select => 3
  end.

Definition run_stmt (q : stmt) (args : list value) (d : db) : db :=
  match q with
  | song_table_insert =>
      {| songs := songs d ++ [args]; artists := artists d; times := times d; users := users d;
         songplays := songplays d; selected := selected d; commits := commits d; closed := closed d |}
  | artist_table_insert =>
      {| songs := songs d; artists := artists d ++ [args]; times := times d; users := users d;
         songplays := songplays d; selected := selected d; commits := commits d; closed := closed d |}
  | time_table_insert =>
      {| songs := songs d; artists := artists d; times := times d ++ [args]; users := users d;
         songplays := songplays d; selected := selected d; commits := commits d; closed := closed d |}
  | user_table_insert =>
      {| songs := songs d; artists := artists d; times := times d; users := users d ++ [args];
         songplays := songplays d; selected := selected d; commits := commits d; closed := closed d |}
  | songplay_table_insert =>
      {| songs := songs d; artists := artists d; times := times d; users := users d;
         songplays := songplays d ++ [args]; selected := selected d; commits := commits d;
         closed := closed d |}
  | song_select =>
      {| songs := songs d; artists := artists d; times := times d; users := users d;
         songplays := songplays d;
         selected := match args with [t; n; dur] => lookup d t n dur | _ => None end;
         commits := commits d; closed := closed d |}
  end.

Definition exec (q : stmt) (args : list value) (d : db) : res db :=
  if Nat.eqb (List.length args) (arity q) then Ok (run_stmt q args d)
  else Raise (DatabaseError "not all arguments converted").

Definition do_commit (d : db) : db :=
  {| songs := songs d; artists := artists d; times := times d; users := users d;
     songplays := songplays d; selected := selected d; commits := S (commits d);
     closed := closed d |}.

Definition do_close (d : db) : db :=
  {| songs := songs d; artists := artists d; times := times d; users := users d;
     songplays := songplays d; selected := selected d; commits := commits d; closed := true |}.

Definition postgres : Postgres :=
  {| DB := db;
     db_connect := λ _, Ok empty;
     db_execute := exec;
     db_fetchone := λ d, (selected d, d);
     db_commit := do_commit;
     db_close := do_close |}.

(** A server that cannot be reached. *)
Definition unreachable : Postgres :=
  {| DB := db;
     db_connect := λ _, Raise (DatabaseError "could not connect to server");
     db_execute := exec;
     db_fetchone := λ d, (selected d, d);
     db_commit := do_commit;
     db_close := do_close |}.

(** Directories (flat, each with its files) and the objects of each file. *)
Definition assoc {A} (k : string) (l : list (string * A)) : option A :=
  snd <$> List.find (λ p, String.eqb p.1 k) l.

Definition files (dirs : list (string * list string))
    (contents : list (string * list (gmap string value))) : Files :=
  {| read_json := λ path,
       match assoc path contents with
       | Some recs => Ok recs
       | None => Raise ValueError
       end;
     os_walk := λ root,
       match assoc root dirs with
       | Some names => [(root, [], names)]
       | None => []
       end;
     glob_glob := λ pattern,
       dirs ≫= (λ '(dir, names),
         if String.eqb pattern (path_join dir "*.json")
         then (λ n, path_join dir n) <$> names else []);
     abspath := λ p, "/home/workspace/" +:+ p |}.

(** The two files of the end-to-end scenarios. *)
Definition song_S1 : gmap string value :=
  {[ "song_id" := VStr "S1"; "title" := VStr "T"; "artist_id" := VStr "A1";
     "year" := VInt 2000; "duration" := VFloat 200.5%float;
     "artist_name" := VStr "N"; "artist_location" := VStr "L";
     "artist_latitude" := VFloat 1.0%float; "artist_longitude" := VFloat 2.0%float ]}.

Definition song_S2 : gmap string value :=
  {[ "song_id" := VStr "S2"; "title" := VStr "U"; "artist_id" := VStr "A2";
     "year" := VInt 0; "duration" := VFloat 100.25%float;
     "artist_name" := VStr "M"; "artist_location" := VNull;
     "artist_latitude" := VNull; "artist_longitude" := VNull ]}.

Definition event_with (page : string) (ts : Z) : gmap string value :=
  {[ "page" := VStr page; "ts" := VInt ts; "userId" := VInt 10;
     "firstName" := VStr "F"; "lastName" := VStr "G"; "gender" := VStr "F";
     "level" := VStr "free"; "song" := VStr "T"; "artist" := VStr "N";
     "length" := VFloat 200.5%float; "sessionId" := VInt 7;
     "location" := VStr "L"; "userAgent" := VStr "UA" ]}.

Definition event_Home : gmap string value := event_with "Home" 1541121930000.
Definition event_NextSong : gmap string value := event_with "NextSong" 1541121934796.

Definition song_path : string := "/home/workspace/data/song_data/s1.json".
Definition log_path : string := "/home/workspace/data/log_data/l1.json".

Definition scenario : Files :=
  files [("data/song_data", ["s1.json"]); ("data/log_data", ["l1.json"])]
        [(song_path, [song_S1]); (log_path, [event_Home; event_NextSong])].

(** Only the log file. *)
Definition log_only : Files :=
  files [("data/song_data", []); ("data/log_data", ["l1.json"])]
        [(log_path, [event_Home; event_NextSong])].

(** A song file with two records, and a log directory that is never
    reached. *)
Definition two_records : Files :=
  files [("data/song_data", ["s1.json"]); ("data/log_data", ["l1.json"])]
        [(song_path, [song_S1; song_S2]); (log_path, [event_NextSong])].

(** Two playback events with the same timestamp. *)
Definition same_timestamp : Files :=
  files [("data/log_data", ["l1.json"])]
        [(log_path, [event_NextSong; event_Home; event_NextSong])].

(** Nothing to load. *)
Definition no_files : Files :=
  files [("data/song_data", []); ("data/log_data", [])] [].

(** Song records with a label missing. *)
Definition song_without_title : gmap string value :=
  {[ "song_id" := VStr "S1"; "artist_id" := VStr "A1";
     "year" := VInt 2000; "duration" := VFloat 200.5%float;
     "artist_name" := VStr "N"; "artist_location" := VStr "L";
     "artist_latitude" := VFloat 1.0%float; "artist_longitude" := VFloat 2.0%float ]}.

Definition song_without_artist_name : gmap string value :=
  {[ "song_id" := VStr "S1"; "title" := VStr "T"; "artist_id" := VStr "A1";
     "year" := VInt 2000; "duration" := VFloat 200.5%float;
     "artist_location" := VStr "L";
     "artist_latitude" := VFloat 1.0%float; "artist_longitude" := VFloat 2.0%float ]}.

(** Event records with a label missing, or a timestamp no Timestamp holds. *)
Definition event_without_page : gmap string value :=
  {[ "ts" := VInt 1541121934796; "userId" := VInt 10 ]}.

Definition event_without_song : gmap string value :=
  {[ "page" := VStr "NextSong"; "ts" := VInt 1541121934796; "userId" := VInt 10;
     "firstName" := VStr "F"; "lastName" := VStr "G"; "gender" := VStr "F";
     "level" := VStr "free"; "artist" := VStr "N";
     "length" := VFloat 200.5%float; "sessionId" := VInt 7;
     "location" := VStr "L"; "userAgent" := VStr "UA" ]}.

Definition event_too_late : gmap string value := event_with "NextSong" 10000000000000000.

Definition log_path2 : string := "/home/workspace/data/log_data/l2.json".

Definition one_song (r : gmap string value) : Files :=
  files [("data/song_data", ["s1.json"]); ("data/log_data", [])] [(song_path, [r])].

Definition one_log (recs : list (gmap string value)) : Files :=
  files [("data/song_data", []); ("data/log_data", ["l1.json"])] [(log_path, recs)].

(** Two log files with the same playback and the same labels. *)
Definition two_logs : Files :=
  files [("data/song_data", []); ("data/log_data", ["l1.json"; "l2.json"])]
        [(log_path, [event_Home; event_NextSong]);
         (log_path2, [event_NextSong; event_Home; event_Home])].

End Memory.


(** * Properties *)

(** ** The calendar *)

Section CalendarFacts.
Import Calendar.
Local Open Scope Z_scope.

Lemma hour_range (ms : Z) : 0 <= hour ms < 24.
Proof. unfold hour, ms_per_day. Z.div_mod_to_equations. lia. Qed.

Lemma weekday_range (ms : Z) : 0 <= weekday ms < 7.
Proof. unfold weekday. apply Z.mod_pos_bound. lia. Qed.

Lemma civil_month_day (days : Z) :
  1 <= (civil days).1.2 <= 12 /\ 1 <= (civil days).2 <= 31.
Proof.
  unfold civil. cbv zeta. cbn [fst snd].
  set (z := days + 719468).
  set (era := z / 146097).
  set (doe := z - era * 146097).
  assert (Hdoe : 0 <= doe <= 146096) by (subst doe era; Z.div_mod_to_equations; lia).
  clearbody doe. clear era z.
  set (yoe := (doe - doe / 1460 + doe / 36524 - doe / 146096) / 365).
  set (doy := doe - (365 * yoe + yoe / 4 - yoe / 100)).
  assert (Hdoy : 0 <= doy <= 365) by (subst doy yoe; Z.div_mod_to_equations; lia).
  clearbody doy. clear yoe.
  set (mp := (5 * doy + 2) / 153).
  assert (Hmp : 0 <= mp <= 11) by (subst mp; Z.div_mod_to_equations; lia).
  destruct (mp <? 10) eqn:E.
  - apply Z.ltb_lt in E. split; [lia|]. subst mp. Z.div_mod_to_equations. lia.
  - apply Z.ltb_ge in E. split; [lia|]. subst mp. Z.div_mod_to_equations. lia.
Qed.

(** [civil] gives the date of the day: counting the days up to that date
    gives the day back. *)
Lemma civil_roundtrip (days : Z) :
  let '(y, m, d) := civil days in days_from_civil y m d = days.
Proof.
  unfold civil, days_from_civil. cbv zeta.
  set (z := days + 719468).
  set (era := z / 146097).
  set (doe := z - era * 146097).
  assert (Hdoe : 0 <= doe <= 146096) by (subst doe era; Z.div_mod_to_equations; lia).
  assert (Hz : days = era * 146097 + doe - 719468) by (subst doe z; lia).
  clearbody doe era. clear z.
  set (yoe := (doe - doe / 1460 + doe / 36524 - doe / 146096) / 365).
  assert (Hyoe : 0 <= yoe <= 399) by (subst yoe; Z.div_mod_to_equations; lia).
  set (doy := doe - (365 * yoe + yoe / 4 - yoe / 100)).
  assert (Hdoy : 0 <= doy <= 365) by (subst doy yoe; Z.div_mod_to_equations; lia).
  assert (Hdoe' : doe = yoe * 365 + yoe / 4 - yoe / 100 + doy) by (subst doy; lia).
  clearbody doy yoe.
  set (mp := (5 * doy + 2) / 153).
  assert (Hmp : 0 <= mp <= 11) by (subst mp; Z.div_mod_to_equations; lia).
  assert (Hdoy' : (153 * mp + 2) / 5 <= doy < (153 * (mp + 1) + 2) / 5)
    by (subst mp; Z.div_mod_to_equations; lia).
  clearbody mp.
  destruct (mp <? 10) eqn:E; [apply Z.ltb_lt in E | apply Z.ltb_ge in E].
  - replace (mp + 3 <=? 2) with false by (symmetry; apply Z.leb_gt; lia).
    replace (2 <? mp + 3) with true by (symmetry; apply Z.ltb_lt; lia).
    replace (yoe + era * 400 + 0) with (yoe + era * 400) by lia.
    replace ((yoe + era * 400) / 400) with era by (Z.div_mod_to_equations; lia).
    replace (yoe + era * 400 - era * 400) with yoe by lia.
    replace (mp + 3 - 3) with mp by lia. lia.
  - replace (mp - 9 <=? 2) with true by (symmetry; apply Z.leb_le; lia).
    replace (2 <? mp - 9) with false by (symmetry; apply Z.ltb_ge; lia).
    replace (yoe + era * 400 + 1 - 1) with (yoe + era * 400) by lia.
    replace ((yoe + era * 400) / 400) with era by (Z.div_mod_to_equations; lia).
    replace (yoe + era * 400 - era * 400) with yoe by lia.
    replace (mp - 9 + 9) with mp by lia. lia.
Qed.

Lemma month_range (ms : Z) : 1 <= month ms <= 12.
Proof. unfold month. apply civil_month_day. Qed.

Lemma day_range (ms : Z) : 1 <= day ms <= 31.
Proof. unfold day. apply civil_month_day. Qed.

Lemma day_of_year_range (ms : Z) : 1 <= day_of_year ms <= 366.
Proof.
  unfold day_of_year. pose proof (month_range ms) as Hm. pose proof (day_range ms) as Hd.
  assert (Hb : 0 <= days_before_month (is_leap (year ms)) (month ms) <= 335).
  { unfold days_before_month.
    assert (Hcases : month ms = 1 \/ month ms = 2 \/ month ms = 3 \/ month ms = 4
                     \/ month ms = 5 \/ month ms = 6 \/ month ms = 7 \/ month ms = 8
                     \/ month ms = 9 \/ month ms = 10 \/ month ms = 11 \/ month ms = 12) by lia.
    destruct (is_leap (year ms));
      repeat (destruct Hcases as [->|Hcases]; [simpl; lia|]); rewrite Hcases; simpl; lia. }
  lia.
Qed.

Lemma weeks_in_year_range (y : Z) : 52 <= weeks_in_year y <= 53.
Proof. unfold weeks_in_year. destruct (_ || _); lia. Qed.

Lemma week_range (ms : Z) : 1 <= week ms <= 53.
Proof.
  unfold week. cbv zeta.
  pose proof (day_of_year_range ms) as Hd. pose proof (weekday_range ms) as Hw.
  pose proof (weeks_in_year_range (year ms)) as H1.
  pose proof (weeks_in_year_range (year ms - 1)) as H2.
  set (w := (day_of_year ms - (weekday ms + 1) + 10) / 7).
  assert (Hwr : 0 <= w <= 53) by (subst w; Z.div_mod_to_equations; lia).
  destruct (w <? 1) eqn:E1; [lia|]. apply Z.ltb_ge in E1.
  destruct (weeks_in_year (year ms) <? w) eqn:E2; [lia|]. apply Z.ltb_ge in E2. lia.
Qed.

Lemma year_range (ms : Z) : in_bounds ms = true -> 1677 <= year ms <= 2262.
Proof.
  unfold in_bounds. intros Hb. apply andb_prop in Hb as [H1 H2].
  apply Z.ltb_lt in H1, H2.
  assert (Hms : -9223372036855 <= ms <= 9223372036854) by lia.
  unfold year, civil, days_of, ms_per_day. cbv zeta. cbn [fst snd].
  set (days := ms / 86400000).
  assert (Hdays : -106752 <= days <= 106751) by (subst days; Z.div_mod_to_equations; lia).
  clearbody days. clear H1 H2 Hms.
  set (z := days + 719468).
  assert (Hz : 612716 <= z <= 826219) by (subst z; lia). clearbody z.
  set (era := z / 146097).
  assert (Hera : era = 4 \/ era = 5) by (subst era; Z.div_mod_to_equations; lia).
  set (doe := z - era * 146097).
  assert (Hdoe : 0 <= doe <= 146096) by (subst doe era; Z.div_mod_to_equations; lia).
  assert (Hdoe4 : era = 4 -> 28328 <= doe) by (subst doe; lia).
  assert (Hdoe5 : era = 5 -> doe <= 95734) by (subst doe; lia).
  clearbody doe. clearbody era.
  set (yoe := (doe - doe / 1460 + doe / 36524 - doe / 146096) / 365).
  assert (Hyoe : 0 <= yoe <= 399) by (subst yoe; Z.div_mod_to_equations; lia).
  assert (Hyoe4 : era = 4 -> 77 <= yoe)
    by (intros He; specialize (Hdoe4 He); subst yoe; Z.div_mod_to_equations; lia).
  assert (Hyoe5 : era = 5 -> yoe <= 262)
    by (intros He; specialize (Hdoe5 He); subst yoe; Z.div_mod_to_equations; lia).
  set (doy := doe - (365 * yoe + yoe / 4 - yoe / 100)).
  assert (Hdoy : 0 <= doy <= 365) by (subst doy yoe; Z.div_mod_to_equations; lia).
  assert (Edoy : doy = doe - (365 * yoe + yoe / 4 - yoe / 100)) by reflexivity.
  clearbody doy. clearbody yoe.
  assert (Hdoy5 : era = 5 -> yoe = 262 -> doy <= 100).
  { intros He Hy. specialize (Hdoe5 He). subst doy. Z.div_mod_to_equations. lia. }
  clear Edoy.
  set (mp := (5 * doy + 2) / 153).
  assert (Hmp : 0 <= mp <= 11) by (subst mp; Z.div_mod_to_equations; lia).
  assert (Hmp5 : era = 5 -> yoe = 262 -> mp < 10).
  { intros He Hy. specialize (Hdoy5 He Hy). subst mp. Z.div_mod_to_equations. lia. }
  clearbody mp.
  destruct (mp <? 10) eqn:Emp.
  - apply Z.ltb_lt in Emp.
    replace (mp + 3 <=? 2) with false by (symmetry; apply Z.leb_gt; lia).
    destruct Hera as [He|He]; [specialize (Hyoe4 He) | specialize (Hyoe5 He)]; lia.
  - apply Z.ltb_ge in Emp.
    replace (mp - 9 <=? 2) with true.
    + destruct Hera as [He|He]; [specialize (Hyoe4 He); lia|].
      specialize (Hyoe5 He). assert (yoe <> 262) by (intros Hy; specialize (Hmp5 He Hy); lia). lia.
    + symmetry. apply Z.leb_le. lia.
Qed.

End CalendarFacts.

Example calendar_2018_11_02 :
  time_row 1541121934796 =
  [VTimestamp 1541121934796; VInt 1; VInt 2; VInt 44; VInt 11; VInt 2018; VInt 4].
Proof. reflexivity. Qed.

Example calendar_iso_edges :
  Calendar.week 1609459200000 = 53%Z      (* 2021-01-01 *)
  ∧ Calendar.week 1546214400000 = 1%Z     (* 2018-12-31 *)
  ∧ Calendar.week 1451606400000 = 53%Z    (* 2016-01-01 *)
  ∧ Calendar.week 1583020800000 = 9%Z     (* 2020-03-01 *)
  ∧ Calendar.week (-86400000) = 1%Z.      (* 1969-12-31 *)
Proof. repeat split; reflexivity. Qed.

(** ** Computations and traces *)

Section Laws.
Context `{Postgres} `{Files}.

Lemma lift_run {A} (r : res A) (s : DB) : lift r s = Outcome r s [].
Proof. by destruct r. Qed.

Lemma result_bind {A B} (m : M A) (k : A → M B) (s : DB) :
  result (bind m k s) =
  match result (m s) with
  | Ok a => result (k a (final (m s)))
  | Raise e => Raise e
  end.
Proof. unfold bind. by destruct (result (m s)). Qed.

Lemma emitted_bind {A B} (m : M A) (k : A → M B) (s : DB) :
  emitted (bind m k s) =
  emitted (m s) ++
  match result (m s) with
  | Ok a => emitted (k a (final (m s)))
  | Raise _ => []
  end.
Proof. unfold bind. destruct (result (m s)); simpl; by rewrite ?app_nil_r. Qed.

Lemma final_bind {A B} (m : M A) (k : A → M B) (s : DB) :
  final (bind m k s) =
  match result (m s) with
  | Ok a => final (k a (final (m s)))
  | Raise _ => final (m s)
  end.
Proof. unfold bind. by destruct (result (m s)). Qed.

Lemma bind_lift {A B} (r : res A) (k : A → M B) (s : DB) :
  bind (lift r) k s =
  match r with
  | Ok a => k a s
  | Raise e => Outcome (Raise e) s []
  end.
Proof. destruct r; unfold bind; simpl; [by destruct (k a s) | done]. Qed.

Lemma completes_bind {A B} (m : M A) (k : A → M B) (s : DB) :
  completes (bind m k s) ↔
  ∃ a, result (m s) = Ok a ∧ completes (k a (final (m s))).
Proof.
  unfold completes. rewrite result_bind. split.
  - destruct (result (m s)) as [a|e]; intros [b Hb]; [eauto | discriminate].
  - intros (a & -> & Hk). exact Hk.
Qed.

Lemma not_completes_raise {S A} (o : outcome S A) (e : exn) :
  result o = Raise e → ¬ completes o.
Proof. intros He [a Ha]. congruence. Qed.

Lemma completes_or_raises {S A} (o : outcome S A) :
  completes o ∨ ∃ e, raises o e.
Proof. unfold completes, raises. destruct (result o); eauto. Qed.

Lemma completes_unit {S} (o : outcome S unit) : completes o ↔ result o = Ok tt.
Proof. split; [intros [[] E]; done | intros E; by exists tt]. Qed.

(** *** Reading traces *)

Lemma executes_app (q : stmt) (a b : list event) :
  executes q (a ++ b) = executes q a ++ executes q b.
Proof.
  induction a as [|ev a IH]; [done|].
  destruct ev; simpl; try done. destruct (stmt_eqb q q0); simpl; by rewrite IH.
Qed.

Lemma stmt_eqb_eq (a b : stmt) : stmt_eqb a b = true ↔ a = b.
Proof. destruct a, b; simpl; split; intros E; done. Qed.

Lemma stmt_eqb_refl (a : stmt) : stmt_eqb a a = true.
Proof. by destruct a. Qed.

Lemma elem_of_executes (q : stmt) (args : list value) (tr : list event) :
  args ∈ executes q tr ↔ EExecute q args ∈ tr.
Proof.
  induction tr as [|ev tr IH]; simpl.
  - split; intros E; by apply elem_of_nil in E.
  - rewrite (elem_of_cons tr). destruct ev; simpl;
      try (rewrite IH; split; [by right | by intros [|]]).
    destruct (stmt_eqb q q0) eqn:E.
    + apply stmt_eqb_eq in E as <-. rewrite elem_of_cons, IH.
      split; (intros [E|E]; [left; congruence | by right]).
    + rewrite IH. split; [by right|]. intros [E'|]; [|done].
      injection E' as <- <-. by rewrite stmt_eqb_refl in E.
Qed.

Lemma executes_execute (q q' : stmt) (args : list value) (s : DB) :
  executes q (emitted (execute q' args s)) = if stmt_eqb q q' then [args] else [].
Proof. unfold execute. by destruct (db_execute q' args s); simpl; destruct (stmt_eqb q q'). Qed.

(** *** Loops *)

Lemma for_each_cons {A} (x : A) (l : list A) (body : A → M unit) :
  for_each (x :: l) body = bind (body x) (λ _, for_each l body).
Proof. done. Qed.

(** A loop whose body makes no call [q] makes none. *)
Lemma for_each_executes_nil {A} (q : stmt) (body : A → M unit) (l : list A) (s : DB) :
  (∀ x s, executes q (emitted (body x s)) = []) →
  executes q (emitted (for_each l body s)) = [].
Proof.
  intros Hb. revert s. induction l as [|x l IH]; intros s; [done|].
  rewrite for_each_cons, emitted_bind, executes_app, Hb. simpl.
  destruct (result (body x s)); [apply IH | done].
Qed.

(** A loop whose body makes one call [q] when it completes, and at most
    one when it raises, makes one call per element of a prefix of the
    list, and of the whole list when the loop completes. *)
Lemma for_each_executes {A} (R : A → list value → Prop) (q : stmt)
    (body : A → M unit) (l : list A) (s : DB) :
  (∀ x s, x ∈ l →
     (executes q (emitted (body x s)) = [] ∧ ¬ completes (body x s))
     ∨ ∃ args, executes q (emitted (body x s)) = [args] ∧ R x args) →
  ∃ n, n ≤ List.length l
     ∧ Forall2 R (take n l) (executes q (emitted (for_each l body s)))
     ∧ (completes (for_each l body s) → n = List.length l)
     ∧ (n = 0 → l ≠ [] → ¬ completes (for_each l body s)).
Proof.
  revert s. induction l as [|x l IH]; intros s Hb.
  - exists 0. simpl. repeat split; [lia | constructor | done].
  - rewrite for_each_cons, emitted_bind, executes_app.
    destruct (completes_or_raises (body x s)) as [[[] Hx]|[e Hx]].
    + destruct (Hb x s) as [[_ Hn]|(args & Ea & HR)]; [by left | | ].
      { destruct Hn. by exists tt. }
      destruct (IH (final (body x s))) as (n & Hn & HF & Hc & _).
      { intros y s' Hy. apply Hb. by right. }
      exists (S n). rewrite Hx, Ea. simpl. repeat split.
      * lia.
      * by constructor.
      * intros Hc'. f_equal. apply Hc. apply completes_bind in Hc' as (a & _ & Hc'). exact Hc'.
      * done.
    + unfold raises in Hx. rewrite Hx, app_nil_r.
      assert (Hnc : ¬ completes (bind (body x) (λ _, for_each l body) s)).
      { eapply not_completes_raise. rewrite result_bind, Hx. reflexivity. }
      destruct (Hb x s) as [[Ea _]|(args & Ea & HR)]; [by left | | ]; rewrite Ea.
      * exists 0. simpl. repeat split; [lia | constructor | done | done].
      * exists 1. simpl. rewrite take_0. repeat split; [lia | by repeat constructor | done | done].
Qed.

(** *** The cursor *)

Lemma bind_execute {B} (q : stmt) (args : list value) (k : unit → M B) (s : DB) :
  bind (execute q args) k s =
  match db_execute q args s with
  | Ok s' => Outcome (result (k tt s')) (final (k tt s')) (EExecute q args :: emitted (k tt s'))
  | Raise e => Outcome (Raise e) s [EExecute q args]
  end.
Proof. unfold bind, execute. by destruct (db_execute q args s). Qed.

Lemma bind_fetchone {B} (k : option (value * value) → M B) (s : DB) :
  bind fetchone k s =
  let o := k (db_fetchone s).1 (db_fetchone s).2 in
  Outcome (result o) (final o) (EFetchone :: emitted o).
Proof. unfold bind, fetchone. by destruct (db_fetchone s). Qed.

Lemma execute_run (q : stmt) (args : list value) (s : DB) :
  execute q args s =
  match db_execute q args s with
  | Ok s' => Outcome (Ok tt) s' [EExecute q args]
  | Raise e => Outcome (Raise e) s [EExecute q args]
  end.
Proof. done. Qed.

Lemma to_datetime_Ok (v t : value) :
  to_datetime v = Ok t →
  ∃ ms, v = VInt ms ∧ t = VTimestamp ms ∧ Calendar.in_bounds ms = true.
Proof.
  destruct v; simpl; try discriminate.
  destruct (Calendar.in_bounds z) eqn:E; [|discriminate].
  intros [= <-]. eauto.
Qed.

(** *** One surviving event of a log file *)

Ltac give_up_on_raise :=
  left; split; [reflexivity | eapply not_completes_raise; reflexivity].

(** The step of an event makes the songplay insert of that event, once,
    unless it raises before. *)
Lemma songplay_step_executes (df : DataFrame) (row : gmap string value) (s : DB) :
  (executes songplay_table_insert (emitted (songplay_step df row s)) = []
   ∧ ¬ completes (songplay_step df row s))
  ∨ ∃ args, executes songplay_table_insert (emitted (songplay_step df row s)) = [args]
          ∧ ∃ ids, args = songplay_args row ids.
Proof.
  unfold songplay_step, getattr.
  rewrite bind_lift. destruct (has_column df "song"); [|give_up_on_raise].
  rewrite bind_lift. destruct (has_column df "artist"); [|give_up_on_raise].
  rewrite bind_lift. destruct (has_column df "length"); [|give_up_on_raise].
  rewrite bind_execute. destruct (db_execute song_select _ s) as [s1|e]; [|give_up_on_raise].
  rewrite bind_fetchone. cbv zeta.
  set (ids := ids_of (db_fetchone s1).1).
  assert (Hids : match (db_fetchone s1).1 with
                 | Some (a, b) => (a, b) | None => (VNull, VNull) end = ids) by done.
  destruct ids as [songid artistid] eqn:Eids. rewrite Hids.
  rewrite bind_lift. destruct (has_column df "ts"); [|give_up_on_raise].
  rewrite bind_lift. destruct (to_datetime (cell row "ts")) as [t|e] eqn:Et; [|give_up_on_raise].
  apply to_datetime_Ok in Et as (ms & Ems & -> & _).
  rewrite bind_lift. destruct (has_column df "userId"); [|give_up_on_raise].
  rewrite bind_lift. destruct (has_column df "level"); [|give_up_on_raise].
  rewrite bind_lift. destruct (has_column df "sessionId"); [|give_up_on_raise].
  rewrite bind_lift. destruct (has_column df "location"); [|give_up_on_raise].
  rewrite bind_lift. destruct (has_column df "userAgent"); [|give_up_on_raise].
  right. eexists. split.
  - rewrite execute_run. destruct (db_execute songplay_table_insert _ _); reflexivity.
  - exists (songid, artistid). unfold songplay_args, ts_of. by rewrite Ems.
Qed.

(** The step makes no other insert. *)
Lemma songplay_step_no_other (q : stmt) (df : DataFrame) (row : gmap string value) (s : DB) :
  q ≠ songplay_table_insert → q ≠ song_select →
  executes q (emitted (songplay_step df row s)) = [].
Proof.
  intros Hq1 Hq2.
  assert (E1 : stmt_eqb q songplay_table_insert = false) by by destruct q.
  assert (E2 : stmt_eqb q song_select = false) by by destruct q.
  unfold songplay_step, getattr.
  rewrite bind_lift. destruct (has_column df "song"); [|done].
  rewrite bind_lift. destruct (has_column df "artist"); [|done].
  rewrite bind_lift. destruct (has_column df "length"); [|done].
  rewrite bind_execute.
  destruct (db_execute song_select _ s) as [s1|e]; cbn [emitted executes]; rewrite E2; [|done].
  rewrite bind_fetchone. cbv zeta. cbn [emitted executes].
  destruct ((db_fetchone s1).1) as [[a b]|].
  all: rewrite bind_lift; destruct (has_column df "ts"); [|done].
  all: rewrite bind_lift; destruct (to_datetime (cell row "ts")); [|done].
  all: rewrite bind_lift; destruct (has_column df "userId"); [|done].
  all: rewrite bind_lift; destruct (has_column df "level"); [|done].
  all: rewrite bind_lift; destruct (has_column df "sessionId"); [|done].
  all: rewrite bind_lift; destruct (has_column df "location"); [|done].
  all: rewrite bind_lift; destruct (has_column df "userAgent"); [|done].
  all: rewrite executes_execute, E1; done.
Qed.

Lemma traverse_ts (evs : list (gmap string value)) (t : list value) :
  traverse to_datetime ((λ r, cell r "ts") <$> evs) = Ok t →
  Forall (λ r, ∃ ms, cell r "ts" = VInt ms ∧ Calendar.in_bounds ms = true) evs
  ∧ time_rows t = time_args <$> evs.
Proof.
  revert t. induction evs as [|r evs IH]; intros t; simpl.
  - intros [= <-]. split; [constructor | done].
  - destruct (to_datetime (cell r "ts")) as [v|e] eqn:Ev; [|discriminate].
    destruct (traverse _ _) as [vs|e]; [|discriminate].
    intros [= <-]. apply to_datetime_Ok in Ev as (ms & Ems & -> & Hb).
    destruct (IH vs eq_refl) as [HF Ht]. split.
    + constructor; eauto.
    + change (time_rows (VTimestamp ms :: vs)) with (time_row ms :: time_rows vs).
      rewrite Ht. f_equal.
      unfold time_args, time_row, ts_of. by rewrite Ems.
Qed.

Lemma for_each_execute_same (q : stmt) (l : list (list value)) (s : DB) :
  ∃ n, n ≤ List.length l
     ∧ executes q (emitted (for_each l (λ row, execute q row) s)) = take n l
     ∧ (completes (for_each l (λ row, execute q row) s) → n = List.length l).
Proof.
  destruct (for_each_executes (λ x args, args = x) q (λ row, execute q row) l s)
    as (n & Hn & HF & Hc & _).
  { intros x s' _. right. exists x. by rewrite executes_execute, stmt_eqb_refl. }
  exists n. repeat split; [done | | done].
  symmetry. apply list_eq_Forall2. eapply Forall2_impl; [exact HF|]. by intros ?? ->.
Qed.

Lemma for_each_execute_other (q q' : stmt) (l : list (list value)) (s : DB) :
  q ≠ q' → executes q (emitted (for_each l (λ row, execute q' row) s)) = [].
Proof.
  intros Hq. apply for_each_executes_nil. intros x s'.
  rewrite executes_execute. destruct (stmt_eqb q q') eqn:E; [|done].
  by apply stmt_eqb_eq in E.
Qed.


Lemma executes_bind {A B} (q : stmt) (m : M A) (k : A → M B) (s : DB) :
  executes q (emitted (bind m k s)) =
  executes q (emitted (m s)) ++
  match result (m s) with
  | Ok a => executes q (emitted (k a (final (m s))))
  | Raise _ => []
  end.
Proof. rewrite emitted_bind, executes_app. by destruct (result (m s)). Qed.

Lemma not_completes_bind {A B} (m : M A) (k : A → M B) (s : DB) (e : exn) :
  result (m s) = Raise e → ¬ completes (bind m k s).
Proof. intros E. eapply not_completes_raise. rewrite result_bind, E. reflexivity. Qed.

Lemma songplay_step_selects (df : DataFrame) (row : gmap string value) (s : DB) :
  (executes song_select (emitted (songplay_step df row s)) = []
   ∧ ¬ completes (songplay_step df row s))
  ∨ ∃ args, executes song_select (emitted (songplay_step df row s)) = [args]
          ∧ args = select_args row.
Proof.
  unfold songplay_step, getattr.
  rewrite bind_lift. destruct (has_column df "song"); [|give_up_on_raise].
  rewrite bind_lift. destruct (has_column df "artist"); [|give_up_on_raise].
  rewrite bind_lift. destruct (has_column df "length"); [|give_up_on_raise].
  right. exists (select_args row). split; [|done].
  rewrite bind_execute.
  destruct (db_execute song_select _ s) as [s1|e]; cbn [emitted executes stmt_eqb]; [|done].
  f_equal. rewrite bind_fetchone. cbv zeta. cbn [emitted executes].
  destruct ((db_fetchone s1).1) as [[a b]|].
  all: rewrite bind_lift; destruct (has_column df "ts"); [|done].
  all: rewrite bind_lift; destruct (to_datetime (cell row "ts")); [|done].
  all: rewrite bind_lift; destruct (has_column df "userId"); [|done].
  all: rewrite bind_lift; destruct (has_column df "level"); [|done].
  all: rewrite bind_lift; destruct (has_column df "sessionId"); [|done].
  all: rewrite bind_lift; destruct (has_column df "location"); [|done].
  all: rewrite bind_lift; destruct (has_column df "userAgent"); [|done].
  all: by rewrite executes_execute.
Qed.

Lemma process_log_file_shape (filepath : string) (s : DB) :
  let o := process_log_file filepath s in
  (emitted o = [] ∧ ¬ completes o)
  ∨ ∃ recs nt nu np ns,
      let evs := List.filter is_NextSong recs in
      read_json filepath = Ok recs
      ∧ Forall (λ r, ∃ ms, cell r "ts" = VInt ms ∧ Calendar.in_bounds ms = true) evs
      ∧ executes time_table_insert (emitted o) = time_args <$> take nt evs
      ∧ executes user_table_insert (emitted o) = user_args <$> take nu evs
      ∧ Forall2 (λ r args, ∃ ids, args = songplay_args r ids)
                (take np evs) (executes songplay_table_insert (emitted o))
      ∧ executes song_table_insert (emitted o) = []
      ∧ executes artist_table_insert (emitted o) = []
      ∧ nt ≤ List.length evs ∧ nu ≤ List.length evs ∧ np ≤ List.length evs
      ∧ (0 < nu → nt = List.length evs)
      ∧ (0 < np → nu = List.length evs)
      ∧ (completes o → nt = List.length evs ∧ nu = List.length evs ∧ np = List.length evs)
      ∧ executes song_select (emitted o) = select_args <$> take ns evs
      ∧ ns ≤ List.length evs
      ∧ (completes o → ns = List.length evs).
Proof.
  cbv zeta. unfold process_log_file.
  rewrite bind_lift. destruct (read_json filepath) as [recs|e] eqn:Eread; [|give_up_on_raise].
  rewrite bind_lift. destruct (check_columns (from_records recs) ["page"]); [|give_up_on_raise].
  rewrite bind_lift. destruct (check_columns _ ["ts"]); [|give_up_on_raise].
  rewrite bind_lift. destruct (traverse _ _) as [t|e] eqn:Et; [|give_up_on_raise].
  set (df := filter_rows is_NextSong (from_records recs)) in *.
  change (rows df) with (List.filter is_NextSong recs) in *.
  change (values df user_columns) with (user_args <$> List.filter is_NextSong recs).
  set (evs := List.filter is_NextSong recs) in *.
  apply traverse_ts in Et as [Hts Ht]. rewrite Ht.
  right. exists recs.
  set (L1 := for_each (time_args <$> evs) _).
  set (L2 := for_each (user_args <$> evs) _).
  set (L3 := for_each evs _).
  destruct (for_each_execute_same time_table_insert (time_args <$> evs) s)
    as (nt & Hnt & Ent & Hct).
  fold L1 in Ent, Hct. rewrite length_fmap in Hnt, Hct. rewrite <- fmap_take in Ent.
  assert (H1o : ∀ q, q ≠ time_table_insert → executes q (emitted (L1 s)) = []).
  { intros q Hq. by apply for_each_execute_other. }
  destruct (completes_or_raises (L1 s)) as [[[] H1]|[e H1]].
  2: { exists nt, 0, 0, 0. rewrite !(executes_bind _ L1), H1, !app_nil_r.
       rewrite (H1o user_table_insert), (H1o songplay_table_insert),
         (H1o song_table_insert), (H1o artist_table_insert), (H1o song_select) by done.
       repeat split; try done; try lia; try constructor;
         (intros; exfalso; eapply (not_completes_bind L1); [exact H1 | eassumption]). }
  specialize (Hct (ex_intro _ tt H1)). subst nt. rewrite firstn_all in Ent.
  clear Hnt.
  set (s1 := final (L1 s)).
  setoid_rewrite (completes_bind L1).
  rewrite !(executes_bind _ L1), H1. fold s1. rewrite Ent.
  rewrite (H1o user_table_insert), (H1o songplay_table_insert),
    (H1o song_table_insert), (H1o artist_table_insert), (H1o song_select) by done.
  rewrite bind_lift.
  destruct (check_columns df user_columns) as [[]|e].
  2: { exists (List.length evs), 0, 0, 0.
       rewrite firstn_all. simpl. rewrite app_nil_r.
       repeat split; try done; try lia; try constructor; intros;
         match goal with Hc : ∃ _, _ ∧ completes _ |- _ =>
           by destruct Hc as (_ & _ & [? ?]) end. }
  cbv beta.
  destruct (for_each_execute_same user_table_insert (user_args <$> evs) s1)
    as (nu & Hnu & Enu & Hcu).
  fold L2 in Enu, Hcu. rewrite length_fmap in Hnu, Hcu. rewrite <- fmap_take in Enu.
  assert (H2o : ∀ q, q ≠ user_table_insert → executes q (emitted (L2 s1)) = []).
  { intros q Hq. by apply for_each_execute_other. }
  destruct (completes_or_raises (L2 s1)) as [[[] H2]|[e H2]].
  2: { exists (List.length evs), nu, 0, 0. rewrite !(executes_bind _ L2), H2, Enu.
       rewrite (H2o time_table_insert), (H2o songplay_table_insert),
         (H2o song_table_insert), (H2o artist_table_insert), (H2o song_select) by done.
       rewrite firstn_all. simpl. rewrite !app_nil_r.
       repeat split; try done; try lia; try constructor; intros;
         match goal with Hc : ∃ _, _ ∧ completes _ |- _ =>
           destruct Hc as (_ & _ & Hc); by eapply (not_completes_bind L2) in Hc end. }
  specialize (Hcu (ex_intro _ tt H2)). subst nu. rewrite firstn_all in Enu. clear Hnu.
  set (s2 := final (L2 s1)).
  destruct (for_each_executes (λ r args, ∃ ids, args = songplay_args r ids)
              songplay_table_insert (songplay_step df) evs s2) as (np & Hnp & HFp & Hcp & _).
  { intros x s' _. apply songplay_step_executes. }
  fold L3 in HFp, Hcp.
  assert (H3o : ∀ q, q ≠ songplay_table_insert → q ≠ song_select →
                     executes q (emitted (L3 s2)) = []).
  { intros q Hq Hq'. apply for_each_executes_nil. intros x s'.
    by apply songplay_step_no_other. }
  destruct (for_each_executes (λ r args, args = select_args r)
              song_select (songplay_step df) evs s2) as (ns & Hns & HFs & Hcs & _).
  { intros x s' _. apply songplay_step_selects. }
  fold L3 in HFs, Hcs.
  assert (Esel : executes song_select (emitted (L3 s2)) = select_args <$> take ns evs).
  { symmetry. apply list_eq_Forall2, Forall2_fmap_l.
    eapply Forall2_impl; [exact HFs|]. by intros ?? ->. }
  exists (List.length evs), (List.length evs), np, ns.
  rewrite !(executes_bind _ L2), H2, Enu. fold s2.
  rewrite (H2o time_table_insert), (H2o songplay_table_insert),
    (H2o song_table_insert), (H2o artist_table_insert), (H2o song_select) by done.
  rewrite (H3o time_table_insert), (H3o user_table_insert),
    (H3o song_table_insert), (H3o artist_table_insert) by done.
  rewrite firstn_all. simpl. rewrite !app_nil_r.
  repeat split; try done; try lia.
  all: intros; first [apply Hcp | apply Hcs];
    match goal with Hc : ∃ _, _ ∧ completes _ |- _ =>
      destruct Hc as (_ & _ & Hc); apply completes_bind in Hc as ([] & _ & Hc); exact Hc end.
Qed.

Lemma is_NextSong_page (r : gmap string value) :
  is_NextSong r = true ↔ cell r "page" = VStr "NextSong".
Proof.
  unfold is_NextSong. destruct (cell r "page"); try (split; discriminate).
  rewrite String.eqb_eq. split; congruence.
Qed.

Lemma survivor_elem (r : gmap string value) (recs : list (gmap string value)) (n : nat) :
  r ∈ take n (List.filter is_NextSong recs) → r ∈ recs ∧ cell r "page" = VStr "NextSong".
Proof.
  intros Hr. apply elem_of_take in Hr as (i & Hr & _).
  apply list_elem_of_lookup_2, list_elem_of_In, filter_In in Hr as [Hin Hp].
  split; [by apply list_elem_of_In | by apply is_NextSong_page].
Qed.

Lemma ts_of_int (r : gmap string value) (ms : Z) : cell r "ts" = VInt ms → ts_of r = ms.
Proof. unfold ts_of. by intros ->. Qed.

Lemma no_survivor_no_event (filepath : string) (s : DB) (recs : list (gmap string value)) :
  read_json filepath = Ok recs →
  List.filter is_NextSong recs = [] →
  emitted (process_log_file filepath s) = [].
Proof.
  intros Eread Hnone. unfold process_log_file.
  rewrite bind_lift, Eread.
  rewrite bind_lift. destruct (check_columns _ ["page"]); [|done].
  rewrite bind_lift. destruct (check_columns _ ["ts"]); [|done].
  change (rows (filter_rows is_NextSong (from_records recs)))
    with (List.filter is_NextSong recs).
  change (values (filter_rows is_NextSong (from_records recs)) user_columns)
    with (user_args <$> List.filter is_NextSong recs).
  rewrite Hnone. simpl. rewrite !bind_lift.
  by destruct (check_columns _ user_columns).
Qed.


Lemma Forall2_fmap_take_ts {B} (f : gmap string value → B) (P : gmap string value → B → Prop)
    (evs : list (gmap string value)) (n : nat) :
  Forall (λ r, ∃ ms, cell r "ts" = VInt ms ∧ Calendar.in_bounds ms = true) evs →
  (∀ r ms, cell r "ts" = VInt ms → Calendar.in_bounds ms = true → P r (f r)) →
  Forall2 P (take n evs) (f <$> take n evs).
Proof.
  intros Hts HP. apply Forall2_fmap_r, Forall_Forall2_diag.
  apply Forall_take. eapply Forall_impl; [exact Hts|].
  intros r (ms & Ems & Hb). by eapply HP.
Qed.




(** The step of one surviving event, when its columns are there, its [ts]
    converts and the lookup executes. *)
Lemma songplay_step_run (df : DataFrame) (row : gmap string value)
    (s s1 s2 : DB) (results : option (value * value)) (ms : Z) :
  Forall (λ c, has_column df c = true)
    ["song"; "artist"; "length"; "ts"; "userId"; "level"; "sessionId"; "location"; "userAgent"] →
  cell row "ts" = VInt ms →
  Calendar.in_bounds ms = true →
  db_execute song_select [cell row "song"; cell row "artist"; cell row "length"] s = Ok s1 →
  db_fetchone s1 = (results, s2) →
  ∃ songid artistid,
    let args := [VTimestamp ms; cell row "userId"; cell row "level"; songid; artistid;
                 cell row "sessionId"; cell row "location"; cell row "userAgent"] in
    emitted (songplay_step df row s) =
      [EExecute song_select [cell row "song"; cell row "artist"; cell row "length"];
       EFetchone;
       EExecute songplay_table_insert args]
    ∧ (results = None → songid = VNull ∧ artistid = VNull)
    ∧ (∀ a b, results = Some (a, b) → songid = a ∧ artistid = b)
    ∧ result (songplay_step df row s) =
        match db_execute songplay_table_insert args s2 with
        | Ok _ => Ok tt
        | Raise e => Raise e
        end.
Proof.
  intros Hcols Ets Hb Hsel Hfetch.
  exists (ids_of results).1, (ids_of results).2. cbv zeta.
  repeat match goal with
         | Hc : Forall _ (_ :: _) |- _ => apply Forall_cons in Hc as [? Hc]
         end.
  unfold songplay_step, getattr.
  repeat match goal with Hc : has_column df _ = true |- _ => rewrite Hc; clear Hc end.
  rewrite !bind_lift, bind_execute, Hsel, bind_fetchone, Hfetch. cbv zeta. cbn [fst snd].
  assert (Hids : match results with Some (a, b) => (a, b) | None => (VNull, VNull) end
                 = ids_of results) by done.
  destruct (ids_of results) as [songid artistid] eqn:Eids. rewrite Hids.
  rewrite !bind_lift, Ets. simpl to_datetime. rewrite Hb. rewrite !bind_lift.
  rewrite execute_run. cbn [fst snd].
  split; [|split; [|split]].
  - by destruct (db_execute songplay_table_insert _ s2).
  - intros ->. by injection Eids as <- <-.
  - intros a b ->. by injection Eids as <- <-.
  - by destruct (db_execute songplay_table_insert _ s2).
Qed.


Lemma has_column_from_records (recs : list (gmap string value)) (c : string) :
  has_column (from_records recs) c = true ↔ ∃ r, r ∈ recs ∧ is_Some (r !! c).
Proof.
  unfold has_column, from_records. simpl. rewrite bool_decide_eq_true, list_elem_of_bind.
  split.
  - intros (r & Hc & Hr). exists r. split; [done|].
    apply list_elem_of_fmap in Hc as ([c' v] & -> & Hv).
    apply elem_of_map_to_list in Hv. by exists v.
  - intros (r & Hr & v & Hv). exists r. split; [|done].
    apply list_elem_of_fmap. exists (c, v). split; [done|]. by apply elem_of_map_to_list.
Qed.

Lemma check_columns_Ok (df : DataFrame) (cols : list string) :
  Forall (λ c, has_column df c = true) cols → check_columns df cols = Ok tt.
Proof.
  intros Hc. unfold check_columns.
  destruct (List.find _ cols) as [c|] eqn:E; [|done].
  apply find_some in E as [Hin Hn]. apply list_elem_of_In in Hin.
  rewrite Forall_forall in Hc. by rewrite (Hc c Hin) in Hn.
Qed.

Lemma cell_lookup (r : gmap string value) (c : string) (v : value) :
  r !! c = Some v → cell r c = v.
Proof. unfold cell. by intros ->. Qed.

Lemma process_song_file_run (filepath : string) (s : DB)
    (r0 : gmap string value) (rest : list (gmap string value)) :
  read_json filepath = Ok (r0 :: rest) →
  Forall (λ c, ∃ r, r ∈ r0 :: rest ∧ is_Some (r !! c)) (song_columns ++ artist_columns) →
  process_song_file filepath s =
  bind (execute song_table_insert (cell r0 <$> song_columns))
       (λ _, execute artist_table_insert
               (concat ((λ r, cell r <$> artist_columns) <$> r0 :: rest))) s.
Proof.
  intros Eread Hcols. apply Forall_app in Hcols as [Hs Ha].
  unfold process_song_file. rewrite bind_lift, Eread.
  rewrite bind_lift, check_columns_Ok.
  2: { eapply Forall_impl; [exact Hs|]. intros c Hc. by apply has_column_from_records. }
  rewrite bind_lift.
  change (first_row _) with (@Ok (list value) (cell r0 <$> song_columns)).
  cbv iota beta. rewrite !bind_execute.
  destruct (db_execute song_table_insert _ s) as [s1|e]; [|done].
  rewrite bind_lift, check_columns_Ok; [done|].
  eapply Forall_impl; [exact Ha|]. intros c Hc. by apply has_column_from_records.
Qed.


(** C10.  For a song file of one record or more, whose song insert
    returns: [process_song_file] makes two inserts and no other call;
    the song insert has the five song fields of the first record, the
    artist insert has the five artist fields of every record, one record
    after the other, which is five values exactly when the file has one
    record. *)
Theorem song_file_two_inserts (filepath : string) (s s1 : DB)
    (r0 : gmap string value) (rest : list (gmap string value)) :
  read_json filepath = Ok (r0 :: rest) →
  Forall (λ c, ∃ r, r ∈ r0 :: rest ∧ is_Some (r !! c)) (song_columns ++ artist_columns) →
  let song_data :=
    [cell r0 "song_id"; cell r0 "title"; cell r0 "artist_id"; cell r0 "year";
     cell r0 "duration"] in
  let artist_data :=
    concat ((λ r, [cell r "artist_id"; cell r "artist_name"; cell r "artist_location";
                   cell r "artist_latitude"; cell r "artist_longitude"]) <$> r0 :: rest) in
  db_execute song_table_insert song_data s = Ok s1 →
  emitted (process_song_file filepath s) =
    [EExecute song_table_insert song_data; EExecute artist_table_insert artist_data]
  ∧ List.length artist_data = 5 * List.length (r0 :: rest)
  ∧ (List.length artist_data = 5 ↔ rest = []).
Proof.
  intros Eread Hcols. cbv zeta. intros Hexec.
  rewrite (process_song_file_run filepath s r0 rest Eread Hcols).
  change (cell r0 <$> song_columns)
    with [cell r0 "song_id"; cell r0 "title"; cell r0 "artist_id"; cell r0 "year";
          cell r0 "duration"].
  rewrite bind_execute, Hexec, execute_run.
  assert (Hlen : ∀ l : list (gmap string value),
            List.length (concat ((λ r, cell r <$> artist_columns) <$> l)) = 5 * List.length l).
  { induction l as [|x l IH]; [done|].
    rewrite fmap_cons, concat_cons, length_app, IH. simpl. lia. }
  split; [|split].
  - by destruct (db_execute artist_table_insert _ s1).
  - apply (Hlen (r0 :: rest)).
  - change (List.length _ = 5) with
      (List.length (concat ((λ r, cell r <$> artist_columns) <$> r0 :: rest)) = 5).
    rewrite (Hlen (r0 :: rest)). simpl. destruct rest; simpl; split; try done; lia.
Qed.

Lemma loader_loop (func : string → M unit) (num : nat) (files : list string) (k : nat) (s : DB) :
  let o := for_each (enumerate files k) (λ '(i, datafile),
             bind (func datafile) (λ _, bind commit (λ _, print (progress_line i num)))) s in
  ∃ blocks tail,
    emitted o = concat (imap (λ i, committed num (k + i)) blocks) ++ tail
    ∧ List.length blocks ≤ List.length files
    ∧ Forall2 (λ f b, ∃ s0, completes (func f s0) ∧ emitted (func f s0) = b)
              (take (List.length blocks) files) blocks
    ∧ (completes o → List.length blocks = List.length files ∧ tail = [])
    ∧ (∀ e, raises o e →
         ∃ f s0, files !! List.length blocks = Some f
                 ∧ raises (func f s0) e ∧ emitted (func f s0) = tail).
Proof.
  cbv zeta. revert k s. induction files as [|f files IH]; intros k s.
  - exists [], []. simpl. repeat split; try done; try lia; try constructor.
  - cbn [enumerate]. rewrite for_each_cons.
    destruct (completes_or_raises (func f s)) as [[[] Hf]|[e Hf]].
    + destruct (IH (S k) (db_commit (final (func f s)))) as (blocks & tail & Eem & Hlen & HF & Hc & Hr).
      exists (emitted (func f s) :: blocks), tail.
      assert (Ebody : ∀ K : unit → M unit,
                bind (bind (func f) (λ _, bind commit (λ _, print (progress_line k num)))) K s
                = let o' := K tt (db_commit (final (func f s))) in
                  Outcome (result o') (final o')
                          (committed num k (emitted (func f s)) ++ emitted o')).
      { intros K. unfold bind at 1 2. rewrite Hf. simpl. unfold committed.
        destruct (K () (db_commit (final (func f s)))); simpl.
        by rewrite <- !app_assoc. }
      rewrite Ebody. cbv zeta. cbn [emitted result]. rewrite Eem.
      repeat split.
      * rewrite imap_cons, concat_cons, Nat.add_0_r, <- app_assoc. do 3 f_equal.
        apply imap_ext. intros i b _. simpl. f_equal. lia.
      * simpl. lia.
      * simpl. constructor; [|done]. exists s. split; [by exists tt | done].
      * simpl. f_equal. by apply Hc.
      * by apply Hc.
      * intros e He. apply Hr in He. exact He.
    + exists [], (emitted (func f s)).
      assert (Ebody : ∀ K : unit → M unit,
                bind (bind (func f) (λ _, bind commit (λ _, print (progress_line k num)))) K s
                = Outcome (Raise e) (final (func f s)) (emitted (func f s))).
      { intros K. unfold bind at 1 2. unfold raises in Hf. by rewrite Hf. }
      rewrite Ebody. simpl. split; [done|]. split; [lia|]. split; [constructor|]. split.
      * by intros [? ?].
      * intros e' [= <-]. exists f, s. by repeat split.
Qed.

Lemma count_commits_app (a b : list event) :
  count_commits (a ++ b) = count_commits a + count_commits b.
Proof. unfold count_commits. by rewrite List.filter_app, length_app. Qed.

Lemma count_commits_none (tr : list event) :
  Forall (λ ev, ev ≠ ECommit) tr → count_commits tr = 0.
Proof.
  induction 1 as [|ev tr Hev _ IH]; [done|].
  unfold count_commits in *. simpl. by destruct ev.
Qed.

Lemma count_commits_blocks (num : nat) (blocks : list (list event)) (k : nat) :
  Forall (Forall (λ ev, ev ≠ ECommit)) blocks →
  count_commits (concat (imap (λ i, committed num (k + i)) blocks)) = List.length blocks.
Proof.
  intros Hb. revert k. induction Hb as [|b blocks Hb _ IH]; intros k; [done|].
  rewrite imap_cons, concat_cons, count_commits_app.
  rewrite (imap_ext _ (λ i, committed num (S k + i))).
  2: { intros i x _. simpl. f_equal. lia. }
  rewrite IH. unfold committed. rewrite count_commits_app, count_commits_none by done.
  done.
Qed.

(** C6.  The events of [process_data], for any extractor [func]: the line
    with the number of files found, then, for the discovered files in
    order, the events of the extractor on the file followed by one commit
    and the progress line "i/n files processed."; this stops at the first
    file on which the extractor raises, with the events of that failed
    extraction and no commit after them, and the exception is the
    Loader's.  When the extractor itself never commits, the commits of
    the trace are as many as the files whose extraction completed. *)
Theorem loader_commits_after_each_file (filepath : string) (func : string → M unit) (s : DB) :
  let files := all_files filepath in
  let num_files := List.length files in
  let o := process_data filepath func s in
  ∃ blocks tail,
    emitted o =
      EPrint (found_line num_files filepath) ::
      concat (imap (λ i block, block ++ [ECommit; EPrint (progress_line (S i) num_files)])
                   blocks) ++ tail
    ∧ List.length blocks ≤ num_files
    ∧ Forall2 (λ f block, ∃ s0, completes (func f s0) ∧ emitted (func f s0) = block)
              (take (List.length blocks) files) blocks
    ∧ (completes o → List.length blocks = num_files ∧ tail = [])
    ∧ (∀ e, raises o e →
         ∃ f s0, files !! List.length blocks = Some f
                 ∧ raises (func f s0) e ∧ emitted (func f s0) = tail)
    ∧ ((∀ f s0, Forall (λ ev, ev ≠ ECommit) (emitted (func f s0))) →
       count_commits (emitted o) = List.length blocks).
Proof.
  cbv zeta. unfold process_data. cbv zeta.
  set (files := all_files filepath). set (num := List.length files).
  destruct (loader_loop func num files 1 s) as (blocks & tail & Eem & Hlen & HF & Hc & Hr).
  exists blocks, tail.
  assert (Erun : ∀ K : M unit,
            bind (print (found_line num filepath)) (λ _, K) s
            = Outcome (result (K s)) (final (K s))
                      (EPrint (found_line num filepath) :: emitted (K s))).
  { intros K. unfold bind, print. by simpl. }
  rewrite Erun. cbn [emitted result]. rewrite Eem.
  change (λ i, committed num (1 + i))
    with (λ i block, block ++ [ECommit; EPrint (progress_line (S i) num)]).
  unfold completes, raises in *. cbn [result].
  repeat split; try done; try (by apply Hc).
  intros Hfunc.
  change (EPrint (found_line num filepath) :: ?l) with ([EPrint (found_line num filepath)] ++ l).
  rewrite !count_commits_app.
  change (λ i block, block ++ [ECommit; EPrint (progress_line (S i) num)])
    with (λ i, committed num (1 + i)).
  rewrite count_commits_blocks.
  - rewrite (count_commits_none tail); [simpl; lia|].
    destruct (result (for_each _ _ s)) as [[]|e] eqn:E.
    + by destruct Hc as [_ ->]; [by exists tt|].
    + destruct (Hr e eq_refl) as (f & s0 & _ & _ & <-). apply Hfunc.
  - clear -HF Hfunc. induction HF as [|f b fs bs (s0 & _ & <-) _ IH]; constructor; auto.
Qed.

Lemma all_files_empty (filepath : string) :
  (∀ root dirs names, (root, dirs, names) ∈ os_walk filepath →
     glob_glob (path_join root "*.json") = []) →
  all_files filepath = [].
Proof.
  unfold all_files. induction (os_walk filepath) as [|[[root dirs] names] l IH]; intros Hg.
  - done.
  - simpl. rewrite (Hg root dirs names) by apply list_elem_of_here. simpl.
    apply IH. intros r d n Hin. eapply Hg. by right.
Qed.

(** C7.  When no directory under the root has a file matching "*.json",
    [process_data] returns normally, leaves the database as it was, and
    its only event is the line "0 files found in <root>": no statement,
    no commit. *)
Theorem loader_on_no_json_files (filepath : string) (func : string → M unit) (s : DB) :
  (∀ root dirs names, (root, dirs, names) ∈ os_walk filepath →
     glob_glob (path_join root "*.json") = []) →
  process_data filepath func s =
    Outcome (Ok tt) s [EPrint ("0 files found in " +:+ filepath)].
Proof.
  intros Hnone. unfold process_data. cbv zeta.
  rewrite (all_files_empty filepath Hnone). done.
Qed.

Lemma Forall_emitted_bind {A B} (P : event → Prop) (m : M A) (k : A → M B) (s : DB) :
  Forall P (emitted (m s)) →
  (∀ a s', Forall P (emitted (k a s'))) →
  Forall P (emitted (bind m k s)).
Proof.
  intros Hm Hk. rewrite emitted_bind. apply Forall_app. split; [done|].
  destruct (result (m s)); [apply Hk | constructor].
Qed.

Lemma Forall_emitted_for_each {A} (P : event → Prop) (body : A → M unit) (l : list A) (s : DB) :
  (∀ x s', Forall P (emitted (body x s'))) →
  Forall P (emitted (for_each l body s)).
Proof.
  intros Hb. revert s. induction l as [|x l IH]; intros s; [constructor|].
  rewrite for_each_cons. apply Forall_emitted_bind; [apply Hb | intros _ s'; apply IH].
Qed.

Lemma Forall_emitted_lift {A} (P : event → Prop) (r : res A) (s : DB) :
  Forall P (emitted (lift r s)).
Proof. rewrite lift_run. constructor. Qed.

Lemma Forall_emitted_execute (q : stmt) (args : list value) (s : DB) :
  Forall cursor_event (emitted (execute q args s)).
Proof. rewrite execute_run. destruct (db_execute q args s); by repeat constructor. Qed.

Lemma Forall_emitted_fetchone (s : DB) : Forall cursor_event (emitted (fetchone s)).
Proof. unfold fetchone. destruct (db_fetchone s). by repeat constructor. Qed.

Ltac cursor_only :=
  repeat first
    [ apply Forall_emitted_lift
    | apply Forall_emitted_execute
    | apply Forall_emitted_fetchone
    | apply Forall_emitted_for_each; intros ? ?
    | apply Forall_emitted_bind; [|intros ? ?]
    | progress cbv zeta
    | match goal with |- context [let '(_, _) := ?p in _] => destruct p as [[[? ?]|] ?] end
    | match goal with |- context [match ?p with Some _ => _ | None => _ end] => destruct p as [[? ?]|] end ].

Lemma process_song_file_cursor (filepath : string) (s : DB) :
  Forall cursor_event (emitted (process_song_file filepath s)).
Proof. unfold process_song_file. cursor_only. Qed.

Lemma songplay_step_cursor (df : DataFrame) (row : gmap string value) (s : DB) :
  Forall cursor_event (emitted (songplay_step df row s)).
Proof. unfold songplay_step. cursor_only. Qed.

Lemma process_log_file_cursor (filepath : string) (s : DB) :
  Forall cursor_event (emitted (process_log_file filepath s)).
Proof.
  unfold process_log_file. cursor_only.
Qed.

Lemma process_data_never_closes (filepath : string) (func : string → M unit) (s : DB) :
  (∀ f s0, Forall cursor_event (emitted (func f s0))) →
  EClose ∉ emitted (process_data filepath func s).
Proof.
  intros Hfunc Hin.
  assert (HF : Forall (λ ev, ev ≠ EClose) (emitted (process_data filepath func s))).
  { unfold process_data. cbv zeta.
    apply Forall_emitted_bind; [by repeat constructor | intros _ s'].
    apply Forall_emitted_for_each. intros [i f] s''.
    apply Forall_emitted_bind.
    - eapply Forall_impl; [apply Hfunc|]. by intros [].
    - intros _ s3. apply Forall_emitted_bind; [by repeat constructor | intros _ s4].
      by repeat constructor. }
  rewrite Forall_forall in HF. by apply (HF EClose).
Qed.

(** C8.  Once connected, [main] calls [conn.close()] exactly when both
    runs of the Loader complete, and then as its last call; when the
    first or the second run raises, [main] raises the same exception
    right there, without the close (and without the second run, when the
    first one raised). *)
Theorem close_only_after_both_loaders (conn : DB) :
  db_connect dsn = Ok conn →
  let o1 := process_data "data/song_data" process_song_file conn in
  let o2 := process_data "data/log_data" process_log_file (final o1) in
  (completes o1 → completes o2 →
     completes main
     ∧ emitted main = EConnect dsn :: ECursor :: emitted o1 ++ emitted o2 ++ [EClose]
     ∧ final main = Some (db_close (final o2)))
  ∧ (∀ e, raises o1 e →
       raises main e
       ∧ emitted main = EConnect dsn :: ECursor :: emitted o1
       ∧ final main = Some (final o1))
  ∧ (completes o1 → ∀ e, raises o2 e →
       raises main e
       ∧ emitted main = EConnect dsn :: ECursor :: emitted o1 ++ emitted o2
       ∧ final main = Some (final o2))
  ∧ (EClose ∈ emitted main ↔ completes o1 ∧ completes o2).
Proof.
  intros Hconn. cbv zeta.
  set (o1 := process_data "data/song_data" process_song_file conn).
  set (o2 := process_data "data/log_data" process_log_file (final o1)).
  assert (Hn1 : EClose ∉ emitted o1).
  { apply process_data_never_closes, process_song_file_cursor. }
  assert (Hn2 : EClose ∉ emitted o2).
  { apply process_data_never_closes, process_log_file_cursor. }
  unfold main. rewrite Hconn. unfold completes, raises. cbn [result emitted final].
  rewrite !result_bind, !emitted_bind, !final_bind. fold o1. fold o2.
  destruct (result o1) as [[]|e1] eqn:E1.
  - destruct (result o2) as [[]|e2] eqn:E2.
    + cbn [close result emitted final]. split; [|split; [|split]].
      * intros _ _. split; [by exists tt | done].
      * by intros e [=].
      * by intros _ e [=].
      * split; [intros _; split; by exists tt | intros _].
        rewrite !elem_of_cons, !elem_of_app, list_elem_of_singleton. tauto.
    + rewrite app_nil_r. split; [|split; [|split]].
      * by intros _ [? [=]].
      * by intros e [=].
      * by intros _ e [= <-].
      * split; [|by intros [_ [? [=]]]].
        rewrite !elem_of_cons, elem_of_app. intros [[=]|[[=]|[?|?]]]; done.
  - rewrite app_nil_r. split; [|split; [|split]].
    + by intros [? [=]].
    + by intros e [= <-].
    + by intros [? [=]].
    + split; [|by intros [[? [=]] _]].
      rewrite !elem_of_cons. intros [[=]|[[=]|?]]; done.
Qed.
(** ** More of the extractors, the Loader and the Driver *)

Lemma has_column_absent (recs : list (gmap string value)) (c : string) :
  (∀ r, r ∈ recs → r !! c = None) → has_column (from_records recs) c = false.
Proof.
  intros Hnone. destruct (has_column (from_records recs) c) eqn:E; [|done].
  apply has_column_from_records in E as (r & Hr & v & Hv).
  rewrite (Hnone r Hr) in Hv. discriminate.
Qed.

Lemma check_columns_absent (df : DataFrame) (cols : list string) (c : string) :
  c ∈ cols → has_column df c = false →
  ∃ c', c' ∈ cols ∧ has_column df c' = false ∧ check_columns df cols = Raise (KeyError c').
Proof.
  intros Hc Hf. unfold check_columns.
  destruct (List.find _ cols) as [c'|] eqn:E.
  - apply find_some in E as [Hin Hn]. exists c'.
    split; [by apply list_elem_of_In|]. split; [by destruct (has_column df c') | done].
  - apply list_elem_of_In in Hc. eapply find_none in E; [|exact Hc].
    simpl in E. by rewrite Hf in E.
Qed.

Lemma process_song_file_trace (filepath : string) (s : DB) :
  let o := process_song_file filepath s in
  (emitted o = [] ∧ ¬ completes o)
  ∨ (∃ a, emitted o = [EExecute song_table_insert a] ∧ ¬ completes o)
  ∨ (∃ a b, emitted o = [EExecute song_table_insert a; EExecute artist_table_insert b]).
Proof.
  cbv zeta. unfold process_song_file.
  rewrite bind_lift. destruct (read_json filepath) as [recs|e]; [|give_up_on_raise].
  rewrite bind_lift. destruct (check_columns _ song_columns); [|give_up_on_raise].
  rewrite bind_lift. destruct (first_row _) as [song_data|e]; [|give_up_on_raise].
  right. rewrite bind_execute.
  destruct (db_execute song_table_insert song_data s) as [s1|e].
  2: { left. exists song_data. split; [done | by eapply not_completes_raise]. }
  rewrite bind_lift. destruct (check_columns _ artist_columns).
  2: { left. exists song_data. split; [done | by eapply not_completes_raise]. }
  right. eexists song_data, _. rewrite execute_run.
  by destruct (db_execute artist_table_insert _ s1).
Qed.

(** X1.  Whatever the file and the database, [process_song_file] makes no
    call but the song insert followed by the artist insert: its events
    are nothing, the song insert alone, or both, and it completes only in
    the last case. *)
Theorem song_file_at_most_two_statements (filepath : string) (s : DB) :
  let o := process_song_file filepath s in
  (emitted o = [] ∧ ¬ completes o)
  ∨ (∃ a, emitted o = [EExecute song_table_insert a] ∧ ¬ completes o)
  ∨ (∃ a b, emitted o = [EExecute song_table_insert a; EExecute artist_table_insert b]).
Proof. apply process_song_file_trace. Qed.

(** X2.  When some label among song_id, title, artist_id, year and duration
    is a key of no record of the file (an empty file included),
    [process_song_file] raises KeyError on such a label before any
    statement, and leaves the database as it was. *)
Theorem song_file_missing_song_column (filepath : string) (s : DB)
    (recs : list (gmap string value)) (c : string) :
  read_json filepath = Ok recs →
  c ∈ song_columns →
  (∀ r, r ∈ recs → r !! c = None) →
  ∃ c', c' ∈ song_columns
      ∧ (∀ r, r ∈ recs → r !! c' = None)
      ∧ process_song_file filepath s = Outcome (Raise (KeyError c')) s [].
Proof.
  intros Eread Hc Hnone.
  destruct (check_columns_absent (from_records recs) song_columns c Hc
              (has_column_absent recs c Hnone)) as (c' & Hc' & Hf & Echeck).
  exists c'. split; [done|]. split.
  - intros r Hr. destruct (r !! c') as [v|] eqn:Ev; [|done].
    assert (has_column (from_records recs) c' = true) as Ht.
    { apply has_column_from_records. exists r. split; [done | by exists v]. }
    congruence.
  - unfold process_song_file. by rewrite bind_lift, Eread, bind_lift, Echeck.
Qed.

(** X3.  When the song labels are there but some artist label is a key of
    no record, the song insert is made all the same, the extractor does
    not complete, and once the song insert has returned it raises
    KeyError with no artist insert, in the state the song insert left. *)
Theorem song_file_missing_artist_column (filepath : string) (s : DB)
    (r0 : gmap string value) (rest : list (gmap string value)) (c : string) :
  read_json filepath = Ok (r0 :: rest) →
  Forall (λ c, ∃ r, r ∈ r0 :: rest ∧ is_Some (r !! c)) song_columns →
  c ∈ artist_columns →
  (∀ r, r ∈ r0 :: rest → r !! c = None) →
  let song_data :=
    [cell r0 "song_id"; cell r0 "title"; cell r0 "artist_id"; cell r0 "year";
     cell r0 "duration"] in
  emitted (process_song_file filepath s) = [EExecute song_table_insert song_data]
  ∧ ¬ completes (process_song_file filepath s)
  ∧ ∀ s1, db_execute song_table_insert song_data s = Ok s1 →
      ∃ c', c' ∈ artist_columns
          ∧ process_song_file filepath s =
            Outcome (Raise (KeyError c')) s1 [EExecute song_table_insert song_data].
Proof.
  intros Eread Hsong Hc Hnone. cbv zeta.
  destruct (check_columns_absent (from_records (r0 :: rest)) artist_columns c Hc
              (has_column_absent _ c Hnone)) as (c' & Hc' & _ & Echeck).
  assert (Erun : process_song_file filepath s =
            match db_execute song_table_insert (cell r0 <$> song_columns) s with
            | Ok s1 => Outcome (Raise (KeyError c')) s1
                         [EExecute song_table_insert (cell r0 <$> song_columns)]
            | Raise e => Outcome (Raise e) s
                         [EExecute song_table_insert (cell r0 <$> song_columns)]
            end).
  { unfold process_song_file. rewrite bind_lift, Eread.
    rewrite bind_lift, check_columns_Ok.
    2: { eapply Forall_impl; [exact Hsong|]. intros c0 Hc0. by apply has_column_from_records. }
    rewrite bind_lift.
    change (first_row _) with (@Ok (list value) (cell r0 <$> song_columns)).
    cbv iota beta. rewrite bind_execute.
    destruct (db_execute song_table_insert _ s) as [s1|e]; [|done].
    by rewrite bind_lift, Echeck. }
  change [cell r0 "song_id"; cell r0 "title"; cell r0 "artist_id"; cell r0 "year";
          cell r0 "duration"] with (cell r0 <$> song_columns).
  rewrite Erun. split; [|split].
  - by destruct (db_execute song_table_insert _ s).
  - destruct (db_execute song_table_insert _ s); by eapply not_completes_raise.
  - intros s1 ->. by exists c'.
Qed.

Lemma bind_ret {A B} (a : A) (k : A → M B) (s : DB) : bind (ret a) k s = k a s.
Proof. unfold bind, ret. simpl. by destruct (k a s). Qed.

Lemma check_columns_one (df : DataFrame) (c : string) :
  check_columns df [c] = if has_column df c then Ok tt else Raise (KeyError c).
Proof. unfold check_columns. simpl. by destruct (has_column df c). Qed.

Lemma has_column_filter_rows (p : gmap string value → bool) (df : DataFrame) (c : string) :
  has_column (filter_rows p df) c = has_column df c.
Proof. done. Qed.

Lemma has_column_present (recs : list (gmap string value)) (c : string) :
  (∃ r, r ∈ recs ∧ is_Some (r !! c)) → has_column (from_records recs) c = true.
Proof. apply has_column_from_records. Qed.

(** X4.  A log file none of whose records has [page] (an empty file
    included) makes [process_log_file] raise KeyError "page"; one with
    [page] but no [ts] anywhere makes it raise KeyError "ts", whether or
    not any event is a playback.  In both cases no statement is made and
    the database is as it was. *)
Theorem log_file_missing_page_or_ts (filepath : string) (s : DB)
    (recs : list (gmap string value)) :
  read_json filepath = Ok recs →
  ((∀ r, r ∈ recs → r !! "page" = None) →
     process_log_file filepath s = Outcome (Raise (KeyError "page")) s [])
  ∧ ((∃ r, r ∈ recs ∧ is_Some (r !! "page")) →
     (∀ r, r ∈ recs → r !! "ts" = None) →
     process_log_file filepath s = Outcome (Raise (KeyError "ts")) s []).
Proof.
  intros Eread. split.
  - intros Hnone. unfold process_log_file.
    by rewrite bind_lift, Eread, bind_lift, check_columns_one, has_column_absent.
  - intros Hpage Hnone. unfold process_log_file.
    rewrite bind_lift, Eread, bind_lift, check_columns_one, has_column_present by done.
    by rewrite bind_lift, check_columns_one, has_column_filter_rows, has_column_absent.
Qed.

Lemma filter_NextSong_nil (recs : list (gmap string value)) :
  Forall (λ r, cell r "page" ≠ VStr "NextSong") recs → List.filter is_NextSong recs = [].
Proof.
  induction 1 as [|r recs Hr _ IH]; [done|]. simpl.
  destruct (is_NextSong r) eqn:E; [|exact IH]. by apply is_NextSong_page in E.
Qed.

(** X5.  A log file with no NextSong event: when page, ts and the five user
    labels are keys of some record, [process_log_file] completes with no
    statement at all, although song, artist, length and the other
    songplay fields may be missing; when one of these seven labels is
    missing everywhere it raises KeyError, with no statement either. *)
Theorem log_file_without_playback (filepath : string) (s : DB)
    (recs : list (gmap string value)) :
  read_json filepath = Ok recs →
  Forall (λ r, cell r "page" ≠ VStr "NextSong") recs →
  (Forall (λ c, ∃ r, r ∈ recs ∧ is_Some (r !! c)) ("page" :: "ts" :: user_columns) →
     process_log_file filepath s = Outcome (Ok tt) s [])
  ∧ (∀ c, c ∈ "page" :: "ts" :: user_columns → (∀ r, r ∈ recs → r !! c = None) →
     ∃ c', c' ∈ "page" :: "ts" :: user_columns
         ∧ process_log_file filepath s = Outcome (Raise (KeyError c')) s []).
Proof.
  intros Eread Hnone. apply filter_NextSong_nil in Hnone.
  assert (Erun : process_log_file filepath s =
            match check_columns (from_records recs) ["page"] with
            | Raise e => Outcome (Raise e) s []
            | Ok _ =>
                match check_columns (from_records recs) ["ts"] with
                | Raise e => Outcome (Raise e) s []
                | Ok _ =>
                    match check_columns (from_records recs) user_columns with
                    | Raise e => Outcome (Raise e) s []
                    | Ok _ => Outcome (Ok tt) s []
                    end
                end
            end).
  { unfold process_log_file. rewrite bind_lift, Eread, bind_lift.
    destruct (check_columns _ ["page"]); [|done].
    rewrite bind_lift.
    change (check_columns (filter_rows is_NextSong (from_records recs)) ["ts"])
      with (check_columns (from_records recs) ["ts"]).
    destruct (check_columns _ ["ts"]); [|done].
    change (rows (filter_rows is_NextSong (from_records recs)))
      with (List.filter is_NextSong recs).
    change (values (filter_rows is_NextSong (from_records recs)) user_columns)
      with (user_args <$> List.filter is_NextSong recs).
    rewrite Hnone.
    change (traverse to_datetime ((λ r, cell r "ts") <$> [])) with (@Ok (list value) []).
    rewrite bind_lift. cbv iota beta.
    change (time_rows []) with (@nil (list value)).
    change (user_args <$> []) with (@nil (list value)).
    cbn [for_each].
    rewrite bind_ret, bind_lift.
    change (check_columns (filter_rows is_NextSong (from_records recs)) user_columns)
      with (check_columns (from_records recs) user_columns).
    destruct (check_columns _ user_columns) as [[]|]; [|done].
    by rewrite bind_ret. }
  rewrite Erun. split.
  - intros Hcols. apply Forall_cons in Hcols as [Hp Hcols]. apply Forall_cons in Hcols as [Ht Hu].
    rewrite !check_columns_one, !has_column_present by done.
    rewrite check_columns_Ok; [done|].
    eapply Forall_impl; [exact Hu|]. intros c Hc. by apply has_column_present.
  - intros c Hc Hmiss. apply has_column_absent in Hmiss.
    rewrite !check_columns_one.
    destruct (has_column (from_records recs) "page") eqn:Ep.
    2: { exists "page". split; [apply list_elem_of_here | done]. }
    destruct (has_column (from_records recs) "ts") eqn:Et.
    2: { exists "ts". split; [apply list_elem_of_further, list_elem_of_here | done]. }
    apply elem_of_cons in Hc as [->|Hc]; [congruence|].
    apply elem_of_cons in Hc as [->|Hc]; [congruence|].
    destruct (check_columns_absent _ user_columns c Hc Hmiss) as (c' & Hc' & _ & ->).
    exists c'. split; [|done]. by do 2 apply list_elem_of_further.
Qed.

Lemma traverse_raises {A B} (f : A → res B) (l : list A) (x : A) (e : exn) :
  x ∈ l → f x = Raise e → ∃ e', traverse f l = Raise e'.
Proof.
  intros Hx Hf. induction l as [|y l IH]; [by apply elem_of_nil in Hx|].
  simpl. destruct (f y) as [b|e'] eqn:Ey; [|eauto].
  apply elem_of_cons in Hx as [->|Hx]; [congruence|].
  destruct (IH Hx) as [e' ->]. eauto.
Qed.


Lemma songplay_step_trace_shape (df : DataFrame) (row : gmap string value) (s : DB) :
  let o := songplay_step df row s in
  let sel := EExecute song_select (select_args row) in
  (emitted o = [] ∧ ¬ completes o)
  ∨ (emitted o = [sel] ∧ ¬ completes o)
  ∨ (emitted o = [sel; EFetchone] ∧ ¬ completes o)
  ∨ ∃ ids, emitted o = [sel; EFetchone; EExecute songplay_table_insert (songplay_args row ids)].
Proof.
  cbv zeta. unfold songplay_step, getattr.
  rewrite bind_lift. destruct (has_column df "song"); [|give_up_on_raise].
  rewrite bind_lift. destruct (has_column df "artist"); [|give_up_on_raise].
  rewrite bind_lift. destruct (has_column df "length"); [|give_up_on_raise].
  right. rewrite bind_execute.
  destruct (db_execute song_select _ s) as [s1|e]; [|give_up_on_raise].
  right. rewrite bind_fetchone. cbv zeta.
  set (ids := ids_of (db_fetchone s1).1).
  assert (Hids : match (db_fetchone s1).1 with
                 | Some (a, b) => (a, b) | None => (VNull, VNull) end = ids) by done.
  destruct ids as [songid artistid] eqn:Eids. rewrite Hids.
  rewrite bind_lift. destruct (has_column df "ts"); [|give_up_on_raise].
  rewrite bind_lift. destruct (to_datetime (cell row "ts")) as [t|e] eqn:Et; [|give_up_on_raise].
  apply to_datetime_Ok in Et as (ms & Ems & -> & _).
  rewrite bind_lift. destruct (has_column df "userId"); [|give_up_on_raise].
  rewrite bind_lift. destruct (has_column df "level"); [|give_up_on_raise].
  rewrite bind_lift. destruct (has_column df "sessionId"); [|give_up_on_raise].
  rewrite bind_lift. destruct (has_column df "location"); [|give_up_on_raise].
  rewrite bind_lift. destruct (has_column df "userAgent"); [|give_up_on_raise].
  right. exists (songid, artistid). rewrite execute_run.
  unfold songplay_args, ts_of. rewrite Ems.
  by destruct (db_execute songplay_table_insert _ _).
Qed.


Lemma for_each_execute_emitted (q : stmt) (l : list (list value)) (s : DB) :
  ∃ n, n ≤ List.length l
     ∧ emitted (for_each l (λ row, execute q row) s) = EExecute q <$> take n l
     ∧ (completes (for_each l (λ row, execute q row) s) → n = List.length l).
Proof.
  revert s. induction l as [|x l IH]; intros s.
  - exists 0. by repeat split.
  - rewrite for_each_cons, bind_execute.
    destruct (db_execute q x s) as [s1|e].
    + destruct (IH s1) as (n & Hn & En & Hc). exists (S n). cbn [emitted result].
      rewrite En. split; [simpl; lia|]. split; [reflexivity|].
      intros [a Ha]. simpl. f_equal. apply Hc. by exists a.
    + exists 1. cbn [emitted result]. split; [simpl; lia|]. split; [by rewrite firstn_cons, take_0|].
      by intros [a Ha].
Qed.


Lemma bind_ext {A B} (m : M A) (k1 k2 : A → M B) (s : DB) :
  (∀ a s', k1 a s' = k2 a s') → bind m k1 s = bind m k2 s.
Proof. intros Hk. unfold bind. destruct (result (m s)); [by rewrite Hk | done]. Qed.

Lemma for_each_ext {A} (l : list A) (b1 b2 : A → M unit) (s : DB) :
  (∀ x s', b1 x s' = b2 x s') → for_each l b1 s = for_each l b2 s.
Proof.
  intros Hb. revert s. induction l as [|x l IH]; intros s; [done|].
  rewrite !for_each_cons. unfold bind. rewrite Hb.
  destruct (result (b2 x s)); [by rewrite IH | done].
Qed.

Lemma check_columns_ext (df1 df2 : DataFrame) (cols : list string) :
  (∀ c, has_column df1 c = has_column df2 c) →
  check_columns df1 cols = check_columns df2 cols.
Proof.
  intros Hc. unfold check_columns.
  induction cols as [|c cols IH]; [done|]. simpl. rewrite Hc.
  destruct (has_column df2 c); [exact IH | done].
Qed.

Lemma songplay_step_ext (df1 df2 : DataFrame) (row : gmap string value) (s : DB) :
  (∀ c, has_column df1 c = has_column df2 c) →
  songplay_step df1 row s = songplay_step df2 row s.
Proof. intros Hc. unfold songplay_step, getattr. by rewrite !Hc. Qed.


(** X10.  Every statement of [process_log_file] gets a fixed number of
    parameters (time 7, users 5, songplays 8, lookup 3), and the song and
    artist inserts are never made from a log file. *)
Theorem log_file_parameter_counts (filepath : string) (s : DB) (q : stmt) (args : list value) :
  EExecute q args ∈ emitted (process_log_file filepath s) →
  match q with
  | time_table_insert => List.length args = 7
  | user_table_insert => List.length args = 5
  | songplay_table_insert => List.length args = 8
  | song_select => List.length args = 3
  | song_table_insert | artist_table_insert => False
  end.
Proof.
  intros Hin. apply elem_of_executes in Hin.
  destruct (process_log_file_shape filepath s) as [[E _]|Hs].
  { rewrite E in Hin. by apply elem_of_nil in Hin. }
  destruct Hs as (recs & nt & nu & np & ns & _ & _ & Et & Eu & Fp & Es & Ea
                  & _ & _ & _ & _ & _ & _ & Esel & _).
  destruct q.
  - rewrite Es in Hin. by apply elem_of_nil in Hin.
  - rewrite Ea in Hin. by apply elem_of_nil in Hin.
  - rewrite Et in Hin. by apply list_elem_of_fmap in Hin as (r & -> & _).
  - rewrite Eu in Hin. by apply list_elem_of_fmap in Hin as (r & -> & _).
  - apply list_elem_of_lookup in Hin as (i & Hi).
    by destruct (Forall2_lookup_r _ _ _ _ _ Fp Hi) as (r & _ & ids & ->).
  - rewrite Esel in Hin. by apply list_elem_of_fmap in Hin as (r & -> & _).
Qed.

Lemma loader_loop_failure (func : string → M unit) (num : nat) (files : list string)
    (k : nat) (s : DB) (e : exn) :
  let o := for_each (enumerate files k) (λ '(i, datafile),
             bind (func datafile) (λ _, bind commit (λ _, print (progress_line i num)))) s in
  raises o e →
  ∃ f s0, f ∈ files ∧ raises (func f s0) e ∧ final o = final (func f s0)
          ∧ emitted (func f s0) `suffix_of` emitted o.
Proof.
  cbv zeta. revert k s. induction files as [|f files IH]; intros k s.
  - by intros [=].
  - cbn [enumerate]. rewrite for_each_cons. unfold raises.
    destruct (result (func f s)) as [[]|e'] eqn:Ef.
    + assert (Ebody : ∀ K : unit → M unit,
                bind (bind (func f) (λ _, bind commit (λ _, print (progress_line k num)))) K s
                = let o' := K tt (db_commit (final (func f s))) in
                  Outcome (result o') (final o')
                          (committed num k (emitted (func f s)) ++ emitted o')).
      { intros K. unfold bind at 1 2. rewrite Ef. simpl. unfold committed.
        destruct (K () (db_commit (final (func f s)))); simpl.
        by rewrite <- !app_assoc. }
      rewrite Ebody. cbv zeta. cbn [result final emitted]. intros He.
      destruct (IH _ _ He) as (f' & s0 & Hf' & Hr & Hfin & Hsuf).
      exists f', s0. split; [by right|]. split; [done|]. split; [done|].
      destruct Hsuf as [pre ->]. eexists. by rewrite !app_assoc.
    + assert (Ebody : ∀ K : unit → M unit,
                bind (bind (func f) (λ _, bind commit (λ _, print (progress_line k num)))) K s
                = Outcome (Raise e') (final (func f s)) (emitted (func f s))).
      { intros K. unfold bind at 1 2. by rewrite Ef. }
      rewrite Ebody. cbn [result final emitted]. intros [= ->].
      exists f, s. split; [by left|]. by repeat split.
Qed.

(** X13.  When [process_data] raises, the exception is the one the extractor
    raised on one of the discovered files; the final state is the one
    that extraction left (no commit, no rollback after it) and its events
    end the trace. *)
Theorem loader_failure_keeps_extractor_state (filepath : string) (func : string → M unit)
    (s : DB) (e : exn) :
  raises (process_data filepath func s) e →
  ∃ f s0, f ∈ all_files filepath
        ∧ raises (func f s0) e
        ∧ final (process_data filepath func s) = final (func f s0)
        ∧ emitted (func f s0) `suffix_of` emitted (process_data filepath func s).
Proof.
  unfold process_data. cbv zeta. unfold raises.
  rewrite result_bind, final_bind, emitted_bind. cbn [print result final emitted].
  intros He. destruct (loader_loop_failure _ _ _ _ _ _ He) as (f & s0 & Hf & Hr & Hfin & Hsuf).
  exists f, s0. repeat split; try done.
  destruct Hsuf as [pre ->]. by exists (EPrint (found_line (List.length (all_files filepath)) filepath) :: pre).
Qed.

Lemma process_data_commit_count (filepath : string) (func : string → M unit) (s : DB) :
  (∀ f s0, Forall (λ ev, ev ≠ ECommit) (emitted (func f s0))) →
  completes (process_data filepath func s) →
  count_commits (emitted (process_data filepath func s)) = List.length (all_files filepath).
Proof.
  intros Hfunc. unfold process_data. cbv zeta.
  destruct (loader_loop func (List.length (all_files filepath)) (all_files filepath) 1 s)
    as (blocks & tail & Eem & _ & HF & Hc & _).
  rewrite completes_bind. intros ([] & _ & Hcomp). cbn [print final] in Hcomp.
  destruct (Hc Hcomp) as [Hlen ->].
  rewrite emitted_bind. cbn [print result final emitted]. rewrite Eem, app_nil_r.
  change (EPrint ?l :: ?t) with ([EPrint l] ++ t).
  rewrite count_commits_app, count_commits_blocks; [by rewrite Hlen|].
  clear -HF Hfunc. induction HF as [|f b fs bs (s0 & _ & <-) _ IH]; constructor; auto.
Qed.

Lemma cursor_event_not_commit (tr : list event) :
  Forall cursor_event tr → Forall (λ ev, ev ≠ ECommit) tr.
Proof. intros HF. eapply Forall_impl; [exact HF|]. by intros []. Qed.

(** X16.  A run of [main] that completes commits once per discovered file,
    song files and log files together. *)
Theorem main_commits_once_per_file :
  completes main →
  count_commits (emitted main)
  = List.length (all_files "data/song_data") + List.length (all_files "data/log_data").
Proof.
  unfold main. destruct (db_connect dsn) as [conn|e]; [|by intros [? [=]]].
  unfold completes. cbn [result emitted].
  rewrite result_bind, emitted_bind.
  set (o1 := process_data "data/song_data" process_song_file conn).
  destruct (result o1) as [[]|e1] eqn:E1; [|by intros [? [=]]].
  rewrite result_bind, emitted_bind.
  set (o2 := process_data "data/log_data" process_log_file (final o1)).
  destruct (result o2) as [[]|e2] eqn:E2; [|by intros [? [=]]].
  intros _.
  change (EConnect dsn :: ECursor :: ?t) with ([EConnect dsn; ECursor] ++ t).
  rewrite !count_commits_app.
  unfold o1 at 1. rewrite process_data_commit_count.
  - unfold o2 at 1.
    rewrite process_data_commit_count; [unfold count_commits; simpl; lia | |by exists tt].
    intros f s0. apply cursor_event_not_commit, process_log_file_cursor.
  - intros f s0. apply cursor_event_not_commit, process_song_file_cursor.
  - by exists tt.
Qed.


Lemma Forall_emitted_execute_of (P : event → Prop) (q : stmt) (args : list value) (s : DB) :
  P (EExecute q args) → Forall P (emitted (execute q args s)).
Proof. intros HP. rewrite execute_run. destruct (db_execute q args s); by repeat constructor. Qed.

Lemma Forall_emitted_process_data (P : event → Prop) (filepath : string)
    (func : string → M unit) (s : DB) :
  P ECommit → (∀ line, P (EPrint line)) →
  (∀ f s0, Forall P (emitted (func f s0))) →
  Forall P (emitted (process_data filepath func s)).
Proof.
  intros Hc Hp Hfunc. unfold process_data. cbv zeta.
  apply Forall_emitted_bind; [by repeat constructor | intros _ s'].
  apply Forall_emitted_for_each. intros [i f] s''.
  apply Forall_emitted_bind; [apply Hfunc|].
  intros _ s3. apply Forall_emitted_bind; [by repeat constructor | intros _ s4].
  by repeat constructor.
Qed.

Lemma process_song_file_song_phase (filepath : string) (s : DB) :
  Forall song_phase_event (emitted (process_song_file filepath s)).
Proof.
  destruct (process_song_file_trace filepath s) as [[-> _]|[(a & -> & _)|(a & b & ->)]];
    repeat (match goal with |- Forall _ _ => constructor end); simpl; auto.
Qed.

Lemma songplay_step_log_phase (df : DataFrame) (row : gmap string value) (s : DB) :
  Forall log_phase_event (emitted (songplay_step df row s)).
Proof.
  destruct (songplay_step_trace_shape df row s) as [[-> _]|[[-> _]|[[-> _]|[ids ->]]]];
    repeat (match goal with |- Forall _ _ => constructor end); simpl; auto.
Qed.

Lemma process_log_file_log_phase (filepath : string) (s : DB) :
  Forall log_phase_event (emitted (process_log_file filepath s)).
Proof.
  unfold process_log_file.
  repeat first
    [ apply songplay_step_log_phase
    | apply Forall_emitted_lift
    | apply Forall_emitted_execute_of; by split
    | apply Forall_emitted_for_each; intros ? ?
    | apply Forall_emitted_bind; [|intros ? ?]
    | progress cbv zeta ].
Qed.

(** X17.  The trace of [main] splits in two: a first part with no other
    statement than song and artist inserts (and no fetch, no close), a
    second part with no song or artist insert: the song data is loaded
    before the first log statement. *)
Theorem main_loads_songs_before_logs :
  ∃ tr1 tr2,
    emitted main = tr1 ++ tr2
    ∧ Forall song_phase_event tr1
    ∧ Forall log_phase_event tr2.
Proof.
  unfold main. destruct (db_connect dsn) as [conn|e].
  2: { exists [EConnect dsn], []. simpl. by repeat constructor. }
  cbn [emitted]. rewrite emitted_bind.
  set (o1 := process_data "data/song_data" process_song_file conn).
  exists (EConnect dsn :: ECursor :: emitted o1). eexists. split; [reflexivity|]. split.
  - do 2 (constructor; [done|]).
    apply Forall_emitted_process_data; [done | done |]. apply process_song_file_song_phase.
  - destruct (result o1); [|constructor].
    apply Forall_emitted_bind.
    + apply Forall_emitted_process_data; [done | done |]. apply process_log_file_log_phase.
    + intros _ s'. by repeat constructor.
Qed.

Lemma prints_app (a b : list event) : prints (a ++ b) = prints a ++ prints b.
Proof. induction a as [|ev a IH]; [done|]. destruct ev; simpl; by rewrite ?IH. Qed.

Lemma prints_blocks (num : nat) (blocks : list (list event)) (k : nat) :
  Forall (λ b, prints b = []) blocks →
  prints (concat (imap (λ i, committed num (k + i)) blocks))
  = (λ i, progress_line i num) <$> seq k (List.length blocks).
Proof.
  intros Hb. revert k. induction Hb as [|b blocks Hb _ IH]; intros k; [done|].
  rewrite imap_cons, concat_cons, prints_app.
  rewrite (imap_ext _ (λ i, committed num (S k + i))).
  2: { intros i x _. simpl. f_equal. lia. }
  rewrite IH. unfold committed. rewrite prints_app, Hb, Nat.add_0_r. done.
Qed.

(** X15.  When the extractor prints nothing, the lines [process_data] prints
    are "n files found in <root>" then "i/n files processed." for
    i = 1, ..., m, where m is the number of files done (n when the run
    completes). *)
Theorem loader_console_lines (filepath : string) (func : string → M unit) (s : DB) :
  (∀ f s0, prints (emitted (func f s0)) = []) →
  let n := List.length (all_files filepath) in
  let o := process_data filepath func s in
  ∃ m, m ≤ n
     ∧ prints (emitted o) = found_line n filepath :: ((λ i, progress_line i n) <$> seq 1 m)
     ∧ (completes o → m = n).
Proof.
  intros Hfunc. cbv zeta. unfold process_data. cbv zeta.
  set (n := List.length (all_files filepath)).
  destruct (loader_loop func n (all_files filepath) 1 s)
    as (blocks & tail & Eem & Hlen & HF & Hc & Hr).
  exists (List.length blocks). split; [done|].
  rewrite emitted_bind. cbn [print result final emitted]. rewrite Eem. split.
  - cbn [prints app]. f_equal. rewrite prints_app, prints_blocks.
    + assert (prints tail = []) as ->; [|by rewrite app_nil_r].
      destruct (completes_or_raises
                  (for_each (enumerate (all_files filepath) 1)
                     (λ '(i, datafile),
                        bind (func datafile)
                          (λ _, bind commit (λ _, print (progress_line i n)))) s))
        as [Hok|[e He]].
      * by destruct (Hc Hok) as [_ ->].
      * destruct (Hr e He) as (f & s0 & _ & _ & <-). apply Hfunc.
    + clear -HF Hfunc. induction HF as [|f b fs bs (s0 & _ & <-) _ IH]; constructor; auto.
  - rewrite completes_bind. intros ([] & _ & Hok). by destruct (Hc Hok).
Qed.

Lemma songplay_insert_needs_attributes (df : DataFrame) (row : gmap string value) (s : DB) :
  executes songplay_table_insert (emitted (songplay_step df row s)) ≠ [] →
  Forall (λ c, has_column df c = true) row_attributes.
Proof.
  unfold songplay_step, getattr.
  rewrite bind_lift. destruct (has_column df "song") eqn:E1; [|by intros Hne].
  rewrite bind_lift. destruct (has_column df "artist") eqn:E2; [|by intros Hne].
  rewrite bind_lift. destruct (has_column df "length") eqn:E3; [|by intros Hne].
  rewrite bind_execute.
  destruct (db_execute song_select _ s) as [s1|e]; cbn [emitted executes stmt_eqb];
    [|by intros Hne].
  rewrite bind_fetchone. cbv zeta. cbn [emitted executes].
  destruct ((db_fetchone s1).1) as [[a b]|].
  all: rewrite bind_lift; destruct (has_column df "ts") eqn:E4; [|by intros Hne].
  all: rewrite bind_lift; destruct (to_datetime (cell row "ts")); [|by intros Hne].
  all: rewrite bind_lift; destruct (has_column df "userId") eqn:E5; [|by intros Hne].
  all: rewrite bind_lift; destruct (has_column df "level") eqn:E6; [|by intros Hne].
  all: rewrite bind_lift; destruct (has_column df "sessionId") eqn:E7; [|by intros Hne].
  all: rewrite bind_lift; destruct (has_column df "location") eqn:E8; [|by intros Hne].
  all: rewrite bind_lift; destruct (has_column df "userAgent") eqn:E9; [|by intros Hne].
  all: intros _; by repeat constructor.
Qed.

Lemma songplay_step_missing_attribute (df : DataFrame) (row : gmap string value) (s : DB)
    (c : string) :
  c ∈ row_attributes → has_column df c = false →
  executes songplay_table_insert (emitted (songplay_step df row s)) = []
  ∧ ¬ completes (songplay_step df row s).
Proof.
  intros Hc Hf.
  assert (Hnil : executes songplay_table_insert (emitted (songplay_step df row s)) = []).
  { destruct (executes songplay_table_insert (emitted (songplay_step df row s))) eqn:E; [done|].
    assert (Hall : Forall (λ c, has_column df c = true) row_attributes).
    { apply (songplay_insert_needs_attributes df row s). by rewrite E. }
    rewrite Forall_forall in Hall. rewrite (Hall c Hc) in Hf. discriminate. }
  split; [done|].
  destruct (songplay_step_executes df row s) as [[_ Hn]|(args & Eargs & _)]; [done|].
  rewrite Hnil in Eargs. discriminate.
Qed.

Lemma completes_for_each_head {A} (x : A) (l : list A) (body : A → M unit) (s : DB) :
  completes (for_each (x :: l) body s) → completes (body x s).
Proof. rewrite for_each_cons, completes_bind. intros (a & Ha & _). by exists a. Qed.

(** X12.  When one of the nine fields read on each row (song, artist,
    length, ts, userId, level, sessionId, location, userAgent) is a key
    of no record, no songplay insert is ever made, and the extractor
    cannot complete as soon as the file has a NextSong event. *)
Theorem log_file_missing_row_field (filepath : string) (s : DB)
    (recs : list (gmap string value)) (c : string) :
  read_json filepath = Ok recs →
  c ∈ row_attributes →
  (∀ r, r ∈ recs → r !! c = None) →
  executes songplay_table_insert (emitted (process_log_file filepath s)) = []
  ∧ ((∃ r, r ∈ recs ∧ cell r "page" = VStr "NextSong") →
     ¬ completes (process_log_file filepath s)).
Proof.
  intros Eread Hc Hnone. apply has_column_absent in Hnone.
  assert (Hstep : ∀ row s0,
            executes songplay_table_insert
              (emitted (songplay_step (filter_rows is_NextSong (from_records recs)) row s0)) = []
            ∧ ¬ completes (songplay_step (filter_rows is_NextSong (from_records recs)) row s0)).
  { intros row s0. by apply (songplay_step_missing_attribute _ row s0 c). }
  unfold process_log_file. rewrite bind_lift, Eread.
  rewrite bind_lift. destruct (check_columns _ ["page"]).
  2: { split; [done|]. intros _. by eapply not_completes_raise. }
  rewrite bind_lift. destruct (check_columns _ ["ts"]).
  2: { split; [done|]. intros _. by eapply not_completes_raise. }
  rewrite bind_lift. destruct (traverse _ _) as [t|e].
  2: { split; [done|]. intros _. by eapply not_completes_raise. }
  split.
  - rewrite executes_bind, for_each_execute_other, app_nil_l by done.
    destruct (result (for_each _ _ s)); [|done].
    rewrite bind_lift. destruct (check_columns _ user_columns); [|done].
    rewrite executes_bind, for_each_execute_other, app_nil_l by done.
    destruct (result (for_each _ _ _)); [|done].
    apply for_each_executes_nil. intros row s0. apply Hstep.
  - intros (r & Hr & Hp) Hcomp.
    apply completes_bind in Hcomp as ([] & _ & Hcomp). revert Hcomp.
    rewrite bind_lift. destruct (check_columns _ user_columns); [|by intros [? [=]]].
    intros Hcomp. apply completes_bind in Hcomp as ([] & _ & Hcomp).
    change (rows (filter_rows is_NextSong (from_records recs)))
      with (List.filter is_NextSong recs) in Hcomp.
    assert (Hin : r ∈ List.filter is_NextSong recs).
    { apply list_elem_of_In, filter_In. split; [by apply list_elem_of_In | by apply is_NextSong_page]. }
    destruct (List.filter is_NextSong recs) as [|r' evs]; [by apply elem_of_nil in Hin|].
    apply completes_for_each_head in Hcomp. by apply (Hstep r') in Hcomp.
Qed.

Lemma loader_loop_success (func : string → M unit) (num : nat) (files : list string)
    (k : nat) (s : DB) :
  let o := for_each (enumerate files k) (λ '(i, datafile),
             bind (func datafile) (λ _, bind commit (λ _, print (progress_line i num)))) s in
  completes o → files ≠ [] →
  ∃ s0 tr, final o = db_commit s0
         ∧ emitted o = tr ++ [ECommit; EPrint (progress_line (k + List.length files - 1) num)].
Proof.
  cbv zeta. revert k s. induction files as [|f files IH]; intros k s Hc Hne; [done|].
  revert Hc. cbn [enumerate]. rewrite for_each_cons.
  destruct (result (func f s)) as [[]|e'] eqn:Ef.
  - assert (Ebody : ∀ K : unit → M unit,
              bind (bind (func f) (λ _, bind commit (λ _, print (progress_line k num)))) K s
              = let o' := K tt (db_commit (final (func f s))) in
                Outcome (result o') (final o')
                        (committed num k (emitted (func f s)) ++ emitted o')).
    { intros K. unfold bind at 1 2. rewrite Ef. simpl. unfold committed.
      destruct (K () (db_commit (final (func f s)))); simpl.
      by rewrite <- !app_assoc. }
    rewrite Ebody. cbv zeta. unfold completes. cbn [result final emitted]. intros Hc.
    destruct files as [|f' files].
    + exists (final (func f s)), (emitted (func f s)).
      replace (k + List.length [f] - 1) with k by (simpl; lia).
      cbn [enumerate for_each ret emitted final]. by rewrite app_nil_r.
    + destruct (IH (S k) _ Hc) as (s0 & tr & -> & ->); [done|].
      exists s0, (committed num k (emitted (func f s)) ++ tr).
      replace (k + List.length (f :: f' :: files) - 1)
        with (S k + List.length (f' :: files) - 1) by (simpl; lia).
      by rewrite <- app_assoc.
  - assert (Ebody : ∀ K : unit → M unit,
              bind (bind (func f) (λ _, bind commit (λ _, print (progress_line k num)))) K s
              = Outcome (Raise e') (final (func f s)) (emitted (func f s))).
    { intros K. unfold bind at 1 2. by rewrite Ef. }
    rewrite Ebody. by intros [? [=]].
Qed.

(** X14.  A run of [process_data] that completes on at least one file ends
    with a commit followed by the line "n/n files processed.", and the
    final state is the result of that commit. *)
Theorem loader_success_ends_committed (filepath : string) (func : string → M unit) (s : DB) :
  completes (process_data filepath func s) →
  all_files filepath ≠ [] →
  let n := List.length (all_files filepath) in
  ∃ s0 tr,
    final (process_data filepath func s) = db_commit s0
    ∧ emitted (process_data filepath func s) = tr ++ [ECommit; EPrint (progress_line n n)].
Proof.
  intros Hc Hne. cbv zeta. revert Hc. unfold process_data. cbv zeta.
  rewrite completes_bind, final_bind, emitted_bind. cbn [print result final emitted].
  intros ([] & _ & Hc).
  destruct (loader_loop_success _ _ _ _ _ Hc Hne) as (s0 & tr & -> & ->).
  exists s0, (EPrint (found_line (List.length (all_files filepath)) filepath) :: tr).
  replace (1 + List.length (all_files filepath) - 1)
    with (List.length (all_files filepath)) by lia.
  by split.
Qed.

End Laws.

(** * The script on concrete files *)

Import Memory.

(** The end-to-end scenario: one song file, then a log file of two lines. *)
Example run_with_song_loaded :
  emitted (@main postgres scenario) =
  [EConnect dsn; ECursor;
   EPrint "1 files found in data/song_data";
   EExecute song_table_insert
     [VStr "S1"; VStr "T"; VStr "A1"; VInt 2000; VFloat 200.5%float];
   EExecute artist_table_insert
     [VStr "A1"; VStr "N"; VStr "L"; VFloat 1.0%float; VFloat 2.0%float];
   ECommit; EPrint "1/1 files processed.";
   EPrint "1 files found in data/log_data";
   EExecute time_table_insert
     [VTimestamp 1541121934796; VInt 1; VInt 2; VInt 44; VInt 11; VInt 2018; VInt 4];
   EExecute user_table_insert [VInt 10; VStr "F"; VStr "G"; VStr "F"; VStr "free"];
   EExecute song_select [VStr "T"; VStr "N"; VFloat 200.5%float];
   EFetchone;
   EExecute songplay_table_insert
     [VTimestamp 1541121934796; VInt 10; VStr "free"; VStr "S1"; VStr "A1";
      VInt 7; VStr "L"; VStr "UA"];
   ECommit; EPrint "1/1 files processed.";
   EClose].
Proof. vm_compute. reflexivity. Qed.

(** The same log file when no song was loaded: the identifiers are null. *)
Example run_without_song :
  executes songplay_table_insert (emitted (@main postgres log_only)) =
  [[VTimestamp 1541121934796; VInt 10; VStr "free"; VNull; VNull;
    VInt 7; VStr "L"; VStr "UA"]]
  ∧ result (@main postgres log_only) = Ok tt.
Proof. split; vm_compute; reflexivity. Qed.

(** A song file of two records: the artist insert gets ten parameters, the
    statement refuses them, and the run stops there, uncommitted and
    unclosed. *)
Example run_on_two_records :
  @main postgres two_records =
  Outcome (Raise (DatabaseError "not all arguments converted"))
    (Some (run_stmt song_table_insert
             [VStr "S1"; VStr "T"; VStr "A1"; VInt 2000; VFloat 200.5%float] empty))
    [EConnect dsn; ECursor;
     EPrint "1 files found in data/song_data";
     EExecute song_table_insert
       [VStr "S1"; VStr "T"; VStr "A1"; VInt 2000; VFloat 200.5%float];
     EExecute artist_table_insert
       [VStr "A1"; VStr "N"; VStr "L"; VFloat 1.0%float; VFloat 2.0%float;
        VStr "A2"; VStr "M"; VNull; VNull; VNull]].
Proof. vm_compute. reflexivity. Qed.

(** The server cannot be reached: nothing but the attempt. *)
Example run_unreachable :
  @main unreachable scenario =
  Outcome (Raise (DatabaseError "could not connect to server")) None [EConnect dsn].
Proof. reflexivity. Qed.






Lemma loader_on_no_json_files_witness :
  @process_data postgres no_files "data/song_data" (@process_song_file postgres no_files) empty
  = Outcome (Ok tt) empty [EPrint "0 files found in data/song_data"].
Proof.
  apply (@loader_on_no_json_files postgres no_files "data/song_data").
  intros root dirs names Hin. vm_compute in Hin.
  apply list_elem_of_singleton in Hin. injection Hin as -> _ _. reflexivity.
Defined.

Lemma close_only_after_both_loaders_witness :
  EClose ∈ emitted (@main postgres scenario)
  ∧ EClose ∉ emitted (@main postgres two_records).
Proof.
  split.
  - apply (proj2 (proj2 (proj2 (@close_only_after_both_loaders postgres scenario empty eq_refl)))).
    split; exists tt; vm_compute; reflexivity.
  - intros Hin.
    apply (proj2 (proj2 (proj2 (@close_only_after_both_loaders postgres two_records empty eq_refl))))
      in Hin as [[[] Hc] _].
    vm_compute in Hc. discriminate Hc.
Defined.


Lemma song_file_two_inserts_witness :
  emitted (@process_song_file postgres two_records song_path empty) =
  [EExecute song_table_insert
     [VStr "S1"; VStr "T"; VStr "A1"; VInt 2000; VFloat 200.5%float];
   EExecute artist_table_insert
     [VStr "A1"; VStr "N"; VStr "L"; VFloat 1.0%float; VFloat 2.0%float;
      VStr "A2"; VStr "M"; VNull; VNull; VNull]].
Proof.
  apply (@song_file_two_inserts postgres two_records song_path empty
           (run_stmt song_table_insert
              [VStr "S1"; VStr "T"; VStr "A1"; VInt 2000; VFloat 200.5%float] empty)
           song_S1 [song_S2]).
  - reflexivity.
  - repeat constructor; exists song_S1; (split; [apply list_elem_of_here | by eexists]).
  - reflexivity.
Defined.

(** ** More runs *)

Lemma cursor_events_print_nothing (tr : list event) :
  Forall cursor_event tr → prints tr = [].
Proof. induction 1 as [|ev tr Hev _ IH]; [done|]. by destruct ev. Qed.

Lemma song_file_missing_song_column_witness :
  ∃ c', c' ∈ song_columns
      ∧ (∀ r, r ∈ [song_without_title] → r !! c' = None)
      ∧ @process_song_file postgres (one_song song_without_title) song_path empty
        = Outcome (Raise (KeyError c')) empty [].
Proof.
  apply (@song_file_missing_song_column postgres (one_song song_without_title)
           song_path empty [song_without_title] "title").
  - reflexivity.
  - apply list_elem_of_further, list_elem_of_here.
  - intros r Hr. apply list_elem_of_singleton in Hr as ->. reflexivity.
Defined.

Lemma song_file_missing_artist_column_witness :
  emitted (@process_song_file postgres (one_song song_without_artist_name) song_path empty)
  = [EExecute song_table_insert
       [VStr "S1"; VStr "T"; VStr "A1"; VInt 2000; VFloat 200.5%float]]
  ∧ ¬ completes (@process_song_file postgres (one_song song_without_artist_name)
                   song_path empty).
Proof.
  destruct (@song_file_missing_artist_column postgres (one_song song_without_artist_name)
              song_path empty song_without_artist_name [] "artist_name")
    as (Hem & Hnc & _).
  - reflexivity.
  - repeat constructor; exists song_without_artist_name;
      (split; [apply list_elem_of_here | by eexists]).
  - apply list_elem_of_further, list_elem_of_here.
  - intros r Hr. apply list_elem_of_singleton in Hr as ->. reflexivity.
  - split; [exact Hem | exact Hnc].
Defined.

Lemma log_file_missing_page_or_ts_witness :
  @process_log_file postgres (one_log [event_without_page]) log_path empty
  = Outcome (Raise (KeyError "page")) empty [].
Proof.
  apply (proj1 (@log_file_missing_page_or_ts postgres (one_log [event_without_page])
                  log_path empty [event_without_page] eq_refl)).
  intros r Hr. apply list_elem_of_singleton in Hr as ->. reflexivity.
Defined.

Lemma log_file_without_playback_witness :
  @process_log_file postgres (one_log [event_Home]) log_path empty = Outcome (Ok tt) empty [].
Proof.
  apply (@log_file_without_playback postgres (one_log [event_Home]) log_path empty
           [event_Home]).
  - reflexivity.
  - constructor; [|constructor]. intros E. vm_compute in E. discriminate E.
  - repeat constructor; exists event_Home; (split; [apply list_elem_of_here | by eexists]).
Defined.




Lemma log_file_parameter_counts_witness :
  List.length [VTimestamp 1541121934796; VInt 10; VStr "free"; VStr "S1"; VStr "A1";
               VInt 7; VStr "L"; VStr "UA"] = 8.
Proof.
  apply (@log_file_parameter_counts postgres scenario log_path
           (run_stmt artist_table_insert
              [VStr "A1"; VStr "N"; VStr "L"; VFloat 1.0%float; VFloat 2.0%float]
              (run_stmt song_table_insert
                 [VStr "S1"; VStr "T"; VStr "A1"; VInt 2000; VFloat 200.5%float] empty))
           songplay_table_insert).
  apply (list_elem_of_lookup_2 _ 4). vm_compute. reflexivity.
Defined.


Lemma log_file_missing_row_field_witness :
  executes songplay_table_insert
    (emitted (@process_log_file postgres (one_log [event_without_song]) log_path empty)) = []
  ∧ ((∃ r, r ∈ [event_without_song] ∧ cell r "page" = VStr "NextSong") →
     ¬ completes (@process_log_file postgres (one_log [event_without_song]) log_path empty)).
Proof.
  apply (@log_file_missing_row_field postgres (one_log [event_without_song]) log_path empty
           [event_without_song] "song").
  - reflexivity.
  - apply list_elem_of_here.
  - intros r Hr. apply list_elem_of_singleton in Hr as ->. reflexivity.
Defined.

Lemma loader_failure_keeps_extractor_state_witness :
  ∃ f s0,
    f ∈ @all_files two_records "data/song_data"
    ∧ raises (@process_song_file postgres two_records f s0)
             (DatabaseError "not all arguments converted")
    ∧ final (@process_data postgres two_records "data/song_data"
               (@process_song_file postgres two_records) empty)
      = final (@process_song_file postgres two_records f s0)
    ∧ emitted (@process_song_file postgres two_records f s0)
      `suffix_of` emitted (@process_data postgres two_records "data/song_data"
                             (@process_song_file postgres two_records) empty).
Proof.
  apply (@loader_failure_keeps_extractor_state postgres two_records).
  vm_compute. reflexivity.
Defined.

Lemma loader_success_ends_committed_witness :
  ∃ s0 tr,
    final (@process_data postgres scenario "data/song_data"
             (@process_song_file postgres scenario) empty) = do_commit s0
    ∧ emitted (@process_data postgres scenario "data/song_data"
                 (@process_song_file postgres scenario) empty)
      = tr ++ [ECommit; EPrint "1/1 files processed."].
Proof.
  apply (@loader_success_ends_committed postgres scenario "data/song_data"
           (@process_song_file postgres scenario) empty).
  - exists tt. vm_compute. reflexivity.
  - intros E. vm_compute in E. discriminate E.
Defined.

Lemma loader_console_lines_witness :
  ∃ m, m ≤ 1
     ∧ prints (emitted (@process_data postgres scenario "data/log_data"
                          (@process_log_file postgres scenario) empty))
       = "1 files found in data/log_data" :: ((λ i, progress_line i 1) <$> seq 1 m)
     ∧ (completes (@process_data postgres scenario "data/log_data"
                     (@process_log_file postgres scenario) empty) → m = 1).
Proof.
  apply (@loader_console_lines postgres scenario "data/log_data"
           (@process_log_file postgres scenario) empty).
  intros f s0. apply cursor_events_print_nothing, process_log_file_cursor.
Defined.

Lemma main_commits_once_per_file_witness :
  count_commits (emitted (@main postgres scenario)) = 2.
Proof.
  apply (@main_commits_once_per_file postgres scenario).
  exists tt. vm_compute. reflexivity.
Defined.
